(** * Rotosolve and Rotoselect: a shallow embedding of
      demonstrations_v2/tutorial_rotoselect/demo.py

    The optimiser core of the demo (opt_theta, rotosolve_cycle, rotosolve,
    optimal_theta_and_gen_helper, rotoselect_cycle, the two driver loops and
    the gate dispatch RGen) is written here as Rocq functions.

    - Numbers: the code computes on Python floats through numpy.  The
      functions below are written once over an interface [Num] holding the
      operations the code uses (literals, + - * /, <=, numpy.arctan2), so
      every structural theorem holds whatever the arithmetic is.  The
      instance [Exact.R_num] reads the interface in exact real arithmetic.
    - Arrays: params and generators are arrays mutated in place.  Each
      function takes the array and returns the mutated array; indexing
      follows Python (negative indices count from the end, anything else
      out of range raises IndexError).
    - Effects: the cost oracle is an external collaborator that may carry
      hidden state (the device samples with shots=1000).  It is a function
      [St -> I -> R * St]; every call is appended to a log held next to the
      oracle state, and exceptions are results of the monad [M]. *)

From Stdlib Require Floats.
From Stdlib Require Import ZArith String Reals Lra Lia.
From stdpp Require Import base list.

Local Open Scope string_scope.
Local Open Scope list_scope.
Local Open Scope Z_scope.

(** ** The numeric interface *)

Class Num (R : Type) : Type := {
  zero : R;                 (* 0.0 *)
  two : R;                  (* 2.0, and the int 2 promoted in 2 * np.pi *)
  pi : R;                   (* np.pi *)
  neg : R -> R;             (* unary minus *)
  add : R -> R -> R;
  sub : R -> R -> R;
  mul : R -> R -> R;
  div : R -> R -> R;
  leb : R -> R -> bool;     (* <= *)
  arctan2 : R -> R -> R     (* np.arctan2 *)
}.

(** ** Exceptions and the state monad *)

Inductive exn : Type := IndexError | UnboundLocalError.

Inductive res (A : Type) : Type :=
| Ok (a : A)
| Raise (e : exn).
Arguments Ok {A} a.
Arguments Raise {A} e.

Definition M (W A : Type) : Type := W -> res A * W.

Definition ret {W A} (a : A) : M W A := fun w => (Ok a, w).

Definition raise {W A} (e : exn) : M W A := fun w => (Raise e, w).

Definition bind {W A B} (m : M W A) (f : A -> M W B) : M W B :=
  fun w => match m w with
           | (Ok a, w') => f a w'
           | (Raise e, w') => (Raise e, w')
           end.

Notation "'let*' x ':=' m 'in' k" := (bind m (fun x => k))
  (at level 10, x name, m at level 100, k at level 200, only parsing).
Notation "'let*' ' pat ':=' m 'in' k" :=
  (bind m (fun x => match x with pat => k end))
  (at level 10, pat pattern, m at level 100, k at level 200, only parsing).

(** A Python [for x in l: body], the loop variables threaded as [s]. *)
Fixpoint for_ {W A S} (l : list A) (body : A -> S -> M W S) (s : S) : M W S :=
  match l with
  | [] => ret s
  | x :: l' => let* s' := body x s in for_ l' body s'
  end.

(** [range(n)] *)
Definition range (n : Z) : list Z := map Z.of_nat (seq 0 (Z.to_nat n)).

(** [len(l)] *)
Definition len {A} (l : list A) : Z := Z.of_nat (length l).

(** ** Python indexing *)

(** The position an index denotes in a sequence of length [n]: [i] itself
    when [0 <= i < n], [n + i] when [-n <= i < 0], none otherwise. *)
Definition norm_index (n : nat) (i : Z) : option nat :=
  if (0 <=? i) && (i <? Z.of_nat n) then Some (Z.to_nat i)
  else if (- Z.of_nat n <=? i) && (i <? 0) then Some (Z.to_nat (Z.of_nat n + i))
  else None.

(** [l[i] = v] *)
Definition setitem {W A} (l : list A) (i : Z) (v : A) : M W (list A) :=
  match norm_index (length l) i with
  | Some k => ret (<[k:=v]> l)
  | None => raise IndexError
  end.

(** [l[i]] *)
Definition getitem {W A} (l : list A) (i : Z) : M W A :=
  match norm_index (length l) i with
  | Some k => match l !! k with
              | Some v => ret v
              | None => raise IndexError
              end
  | None => raise IndexError
  end.

(** ** The cost oracle *)

Record world (St I : Type) : Type := World {
  ost : St;            (* hidden state of the oracle *)
  log : list I         (* arguments of the calls made so far, oldest first *)
}.
Arguments World {St I} ost log.
Arguments ost {St I} w.
Arguments log {St I} w.

(** One call [cost(x)]. *)
Definition call {St I R} (cost : St -> I -> R * St) (x : I) : M (world St I) R :=
  fun w => let '(v, s') := cost (ost w) x in
           (Ok v, World s' (log w ++ [x])).

(** ** The optimiser *)

Section Optimiser.
Context {R : Type} `{Num R} {St : Type}.

(** demo.py, opt_theta (lines 183-197) *)
Definition opt_theta (d : Z) (params : list R)
    (cost : St -> list R -> R * St) : M (world St (list R)) (list R) :=
  let* params := setitem params d zero in
  let* M_0 := call cost params in
  let* params := setitem params d (div pi two) in
  let* M_0_plus := call cost params in
  let* params := setitem params d (div (neg pi) two) in
  let* M_0_minus := call cost params in
  let a := arctan2 (sub (sub (mul two M_0) M_0_plus) M_0_minus)
                   (sub M_0_plus M_0_minus) in
  let* params := setitem params d (sub (div (neg pi) two) a) in
  let* x := getitem params d in
  if leb x (neg pi) then
    let* x := getitem params d in
    setitem params d (add x (mul two pi))
  else ret params.

(** demo.py, rotosolve_cycle (lines 201-204) *)
Definition rotosolve_cycle (cost : St -> list R -> R * St) (params : list R)
    : M (world St (list R)) (list R) :=
  for_ (range (len params)) (fun d params => opt_theta d params cost) params.

(** demo.py, lines 220-222: the body of the Rotosolve driver loop. *)
Definition rotosolve_loop_body (cost : St -> list R -> R * St) (i : Z)
    (s : list R * list R) : M (world St (list R)) (list R * list R) :=
  let '(params_rsol, costs_rotosolve) := s in
  let* c := call cost params_rsol in
  let costs_rotosolve := costs_rotosolve ++ [c] in
  let* params_rsol := rotosolve_cycle cost params_rsol in
  ret (params_rsol, costs_rotosolve).

(** demo.py, lines 218-222: the Rotosolve driver loop; [n_steps] is the
    module constant (30 in the demo), [costs_rotosolve] starts empty. *)
Definition rotosolve_loop (n_steps : Z) (cost : St -> list R -> R * St)
    (init_params : list R) : M (world St (list R)) (list R * list R) :=
  for_ (range n_steps) (rotosolve_loop_body cost) (init_params, []).

(** The Rotoselect oracle takes the parameters and the generators. *)
Definition oracle2 : Type := St -> list R * list string -> R * St.

(** demo.py, rotosolve (lines 357-368); returns the cost it evaluates last
    and the mutated [params]. *)
Definition rotosolve (d : Z) (params : list R) (generators : list string)
    (cost : oracle2) (M_0 : R)
    : M (world St (list R * list string)) (R * list R) :=
  let* params := setitem params d (div pi two) in
  let* M_0_plus := call cost (params, generators) in
  let* params := setitem params d (div (neg pi) two) in
  let* M_0_minus := call cost (params, generators) in
  let a := arctan2 (sub (sub (mul two M_0) M_0_plus) M_0_minus)
                   (sub M_0_plus M_0_minus) in
  let* params := setitem params d (sub (div (neg pi) two) a) in
  let* x := getitem params d in
  let* params :=
    (if leb x (neg pi) then
       let* x := getitem params d in
       setitem params d (add x (mul two pi))
     else ret params) in
  let* c := call cost (params, generators) in
  ret (c, params).

(** The three locals params_opt_d, params_opt_cost, generators_opt_d of the
    helper: unbound until the first assignment, then always set together. *)
Definition incumbent : Type := option (R * R * string).

(** The body of the helper's [for generator in ["X", "Y", "Z"]]. *)
Definition helper_body (d : Z) (cost : oracle2) (M_0 : R) (generator : string)
    (s : list R * list string * incumbent)
    : M (world St (list R * list string)) (list R * list string * incumbent) :=
  let '(params, generators, opt) := s in
  let* generators := setitem generators d generator in
  let* '(params_cost, params) := rotosolve d params generators cost M_0 in
  let* update :=
    (if String.eqb generator "X" then ret true
     else match opt with
          | Some (_, params_opt_cost, _) => ret (leb params_cost params_opt_cost)
          | None => raise UnboundLocalError
          end) in
  if (update : bool) then
    let* params_opt_d := getitem params d in
    ret (params, generators, Some (params_opt_d, params_cost, generator))
  else ret (params, generators, opt).

(** demo.py, optimal_theta_and_gen_helper (lines 371-382); returns the pair
    the code returns and the two arrays as the probing left them. *)
Definition optimal_theta_and_gen_helper (d : Z) (params : list R)
    (generators : list string) (cost : oracle2)
    : M (world St (list R * list string))
        (R * string * (list R * list string)) :=
  let* params := setitem params d zero in
  let* M_0 := call cost (params, generators) in
  let* '(params, generators, opt) :=
    for_ ["X"; "Y"; "Z"] (helper_body d cost M_0) (params, generators, None) in
  match opt with
  | Some (params_opt_d, _, generators_opt_d) =>
      ret (params_opt_d, generators_opt_d, (params, generators))
  | None => raise UnboundLocalError
  end.

(** The body of the loop of rotoselect_cycle:
    [params[d], generators[d] = optimal_theta_and_gen_helper(...)]. *)
Definition rotoselect_step (cost : oracle2) (d : Z)
    (s : list R * list string)
    : M (world St (list R * list string)) (list R * list string) :=
  let '(params, generators) := s in
  let* '(params_opt_d, generators_opt_d, (params, generators)) :=
    optimal_theta_and_gen_helper d params generators cost in
  let* params := setitem params d params_opt_d in
  let* generators := setitem generators d generators_opt_d in
  ret (params, generators).

(** demo.py, rotoselect_cycle (lines 385-388) *)
Definition rotoselect_cycle (cost : oracle2) (params : list R)
    (generators : list string)
    : M (world St (list R * list string)) (list R * list string) :=
  for_ (range (len params)) (rotoselect_step cost) (params, generators).

(** demo.py, lines 404-406: the body of the Rotoselect driver loop. *)
Definition rotoselect_loop_body (cost_rsel : oracle2) (i : Z)
    (s : list R * list string * list R)
    : M (world St (list R * list string))
        (list R * list string * list R) :=
  let '(params_rsel, generators, costs_rsel) := s in
  let* c := call cost_rsel (params_rsel, generators) in
  let costs_rsel := costs_rsel ++ [c] in
  let* '(params_rsel, generators) :=
    rotoselect_cycle cost_rsel params_rsel generators in
  ret (params_rsel, generators, costs_rsel).

(** demo.py, lines 400-406: the Rotoselect driver loop. *)
Definition rotoselect_loop (n_steps : Z) (cost_rsel : oracle2)
    (init_params : list R) (init_generators : list string)
    : M (world St (list R * list string))
        (list R * list string * list R) :=
  for_ (range n_steps) (rotoselect_loop_body cost_rsel)
    (init_params, init_generators, []).

End Optimiser.

(** ** The gate dispatch *)

(** The operations the ansatz queues on the device tape. *)
Inductive op (R : Type) : Type :=
| RX (param : R) (wires : Z)
| RY (param : R) (wires : Z)
| RZ (param : R) (wires : Z)
| CNOT (control target : Z).
Arguments RX {R} param wires.
Arguments RY {R} param wires.
Arguments RZ {R} param wires.
Arguments CNOT {R} control target.

(** Queuing one operation: [qml.RX(...)] and the like. *)
Definition queue {R} (o : op R) : M (list (op R)) unit :=
  fun tape => (Ok tt, tape ++ [o]).

(** demo.py, RGen (lines 317-323): an if/elif/elif chain with no else. *)
Definition RGen {R} (param : R) (generator : string) (wires : Z)
    : M (list (op R)) unit :=
  if String.eqb generator "X" then queue (RX param wires)
  else if String.eqb generator "Y" then queue (RY param wires)
  else if String.eqb generator "Z" then queue (RZ param wires)
  else ret tt.

(** demo.py, ansatz_rsel (lines 326-329) *)
Definition ansatz_rsel {R} (params : list R) (generators : list string)
    : M (list (op R)) unit :=
  let* p0 := getitem params 0 in
  let* g0 := getitem generators 0 in
  let* _ := RGen p0 g0 0 in
  let* p1 := getitem params 1 in
  let* g1 := getitem generators 1 in
  let* _ := RGen p1 g1 1 in
  queue (CNOT 0 1).

(** ** Exact real arithmetic as an instance of the interface *)

Module Exact.

Definition Rleb (x y : R) : bool := if Rle_dec x y then true else false.

(** The two-argument arctangent of [y / x], by quadrant, as numpy
    documents [arctan2(y, x)]. *)
Definition Ratan2 (y x : R) : R :=
  if Rlt_dec 0 x then atan (y / x)
  else if Rlt_dec x 0 then
    if Rle_dec 0 y then (atan (y / x) + PI)%R else (atan (y / x) - PI)%R
  else if Rlt_dec 0 y then (PI / 2)%R
  else if Rlt_dec y 0 then (- PI / 2)%R
  else 0%R.

#[export] Instance R_num : Num R := {|
  zero := 0%R; two := 2%R; pi := PI;
  neg := Ropp; add := Rplus; sub := Rminus; mul := Rmult; div := Rdiv;
  leb := Rleb; arctan2 := Ratan2 |}.

(** The half-open interval (-pi, pi]. *)
Definition in_range (x : R) : Prop := (- PI < x <= PI)%R.

End Exact.

(** ** Vocabulary of the statements *)

Section Vocabulary.
Context {R : Type} `{Num R}.

(** [a] of opt_theta and rotosolve, from the three oracle values. *)
Definition angle_a (M_0 M_0_plus M_0_minus : R) : R :=
  arctan2 (sub (sub (mul two M_0) M_0_plus) M_0_minus)
          (sub M_0_plus M_0_minus).

(** The value left in [params[d]]: [-pi/2 - a], plus [2*pi] when that is
    at or below [-pi]. *)
Definition committed (M_0 M_0_plus M_0_minus : R) : R :=
  let t := sub (div (neg pi) two) (angle_a M_0 M_0_plus M_0_minus) in
  if leb t (neg pi) then add t (mul two pi) else t.

(** Equality as [<=] sees it: [x <= y] and [y <= x]. *)
Definition same_cost (x y : R) : Prop := leb x y = true /\ leb y x = true.

(** The generator search as a selection among three finished candidates
    [(angle, cost)], tried in the order X, Y, Z. *)
Definition challenge (cand : R * R * string) (inc : R * R * string)
    : R * R * string :=
  if leb (snd (fst cand)) (snd (fst inc)) then cand else inc.

Definition select (cX cY cZ : R * R) : R * R * string :=
  challenge (cZ, "Z") (challenge (cY, "Y") (cX, "X")).

(** One candidate of the generator search as the oracle answers it from
    state [s]: generator [g] in slot [k], probes at pi/2 and -pi/2, the
    committed angle, one evaluation there.  [probe] is the candidate
    (angle, cost) with the oracle state it leaves, [probe_calls] the
    arguments of its oracle calls in order. *)
Definition probe {St} (cost : St -> list R * list string -> R * St)
    (k : nat) (params : list R) (generators : list string) (M_0 : R)
    (g : string) (s : St) : R * R * St :=
  let gens := <[k:=g]> generators in
  let r1 := cost s (<[k:=div pi two]> params, gens) in
  let r2 := cost (snd r1) (<[k:=div (neg pi) two]> params, gens) in
  let theta := committed M_0 (fst r1) (fst r2) in
  let r3 := cost (snd r2) (<[k:=theta]> params, gens) in
  (theta, fst r3, snd r3).

Definition probe_calls {St} (cost : St -> list R * list string -> R * St)
    (k : nat) (params : list R) (generators : list string) (M_0 : R)
    (g : string) (s : St) : list (list R * list string) :=
  let gens := <[k:=g]> generators in
  [(<[k:=div pi two]> params, gens);
   (<[k:=div (neg pi) two]> params, gens);
   (<[k:=fst (fst (probe cost k params generators M_0 g s))]> params, gens)].

(** The search at slot [k] from oracle state [s]: the shared baseline at
    [params[k]] = 0, then the candidates X, Y, Z, each starting from the
    oracle state the previous one left. *)
Definition baseline {St} (cost : St -> list R * list string -> R * St)
    (k : nat) (params : list R) (generators : list string) (s : St)
    : R * St :=
  cost s (<[k:=zero]> params, generators).

Definition cand_X {St} (cost : St -> list R * list string -> R * St)
    (k : nat) (params : list R) (generators : list string) (s : St)
    : R * R * St :=
  let b := baseline cost k params generators s in
  probe cost k params generators (fst b) "X" (snd b).

Definition cand_Y {St} (cost : St -> list R * list string -> R * St)
    (k : nat) (params : list R) (generators : list string) (s : St)
    : R * R * St :=
  let b := baseline cost k params generators s in
  probe cost k params generators (fst b) "Y"
    (snd (cand_X cost k params generators s)).

Definition cand_Z {St} (cost : St -> list R * list string -> R * St)
    (k : nat) (params : list R) (generators : list string) (s : St)
    : R * R * St :=
  let b := baseline cost k params generators s in
  probe cost k params generators (fst b) "Z"
    (snd (cand_Y cost k params generators s)).

Definition winner {St} (cost : St -> list R * list string -> R * St)
    (k : nat) (params : list R) (generators : list string) (s : St)
    : R * R * string :=
  select (fst (cand_X cost k params generators s))
         (fst (cand_Y cost k params generators s))
         (fst (cand_Z cost k params generators s)).

Definition search_calls {St} (cost : St -> list R * list string -> R * St)
    (k : nat) (params : list R) (generators : list string) (s : St)
    : list (list R * list string) :=
  let b := baseline cost k params generators s in
  (<[k:=zero]> params, generators)
  :: probe_calls cost k params generators (fst b) "X" (snd b)
  ++ probe_calls cost k params generators (fst b) "Y"
       (snd (cand_X cost k params generators s))
  ++ probe_calls cost k params generators (fst b) "Z"
       (snd (cand_Y cost k params generators s)).

End Vocabulary.

(** ** The rest of the demo's circuit code *)

(** demo.py, ansatz (lines 151-154) *)
Definition ansatz {R} (params : list R) : M (list (op R)) unit :=
  let* p0 := getitem params 0 in
  let* _ := queue (RX p0 0) in
  let* p1 := getitem params 1 in
  let* _ := queue (RY p1 1) in
  queue (CNOT 0 1).

(** The tags RGen knows. *)
Definition known_tag (g : string) : bool :=
  String.eqb g "X" || String.eqb g "Y" || String.eqb g "Z".

(** The Hamiltonian H = 0.5 Y_2 + 0.8 Z_1 - 0.2 X_1 as the demo's cost
    functions assemble it from the expectation values the two device
    executions return.  The executions are external: [circuit] returns the
    pair (Z_1, Y_2), [circuit2] returns X_1, each from the device state it
    is given. *)
Module Hamiltonian.

(** demo.py, cost (lines 169-172) *)
Definition cost {St} (circuit : St -> list R -> (R * R) * St)
    (circuit2 : St -> list R -> R * St) (s : St) (params : list R) : R * St :=
  let '((Z_1, Y_2), s1) := circuit s params in
  let '(X_1, s2) := circuit2 s1 params in
  ((5 / 10 * Y_2 + 8 / 10 * Z_1 - 2 / 10 * X_1)%R, s2).

(** demo.py, cost_rsel (lines 344-347) *)
Definition cost_rsel {St}
    (circuit_rsel : St -> list R * list string -> (R * R) * St)
    (circuit_rsel2 : St -> list R * list string -> R * St)
    (s : St) (x : list R * list string) : R * St :=
  let '((Z_1, Y_2), s1) := circuit_rsel s x in
  let '(X_1, s2) := circuit_rsel2 s1 x in
  ((5 / 10 * Y_2 + 8 / 10 * Z_1 - 2 / 10 * X_1)%R, s2).

(** An expectation value of a Pauli observable. *)
Definition expval (x : R) : Prop := (-1 <= x <= 1)%R.

End Hamiltonian.

(** A stand-in for the device: any executions whose answers are
    expectation values will do; these are deterministic. *)
Module StandIn.

Definition circuit (s : unit) (params : list R) : (R * R) * unit :=
  ((cos (nth 0 params 0%R), sin (nth 1 params 0%R)), s).

Definition circuit2 (s : unit) (params : list R) : R * unit :=
  (sin (nth 0 params 0%R), s).

Definition circuit_rsel (s : unit) (x : list R * list string)
    : (R * R) * unit :=
  circuit s (fst x).

Definition circuit_rsel2 (s : unit) (x : list R * list string) : R * unit :=
  circuit2 s (fst x).

End StandIn.

(** A cost landscape that is a sinusoid of period 2 pi along every axis,
    at every vector of length [D]: the shape the expectation value of a
    circuit of rotation gates has in each of its angles. *)
Definition sinusoidal {St} (cost : St -> list R -> R * St) (D : nat) : Prop :=
  forall (q : list R) (k : nat),
    length q = D -> (k < D)%nat ->
    exists A phi C,
      forall s theta,
        fst (cost s (<[k:=theta]> q)) = (A * sin (theta + phi) + C)%R.

(** ** The code's own arithmetic as an instance of the interface *)

(** Python floats are IEEE 754 binary64, here Rocq's primitive floats.
    np.arctan2 is the C library's atan2: on a NaN argument it returns NaN
    (C99, Annex F); its value on other arguments is the parameter
    [atan2]. *)
Module Float64.
Import PrimFloat.

(** np.pi *)
Definition np_pi : float := 0x1.921fb54442d18p+1%float.

Definition np_arctan2 (atan2 : float -> float -> float) (y x : float)
    : float :=
  if is_nan y || is_nan x then nan else atan2 y x.

Definition float_num (atan2 : float -> float -> float) : Num float :=
  Build_Num float 0%float 2%float np_pi opp add sub mul div leb
    (np_arctan2 atan2).

(** [-np.pi < x <= np.pi] as Python evaluates it. *)
Definition in_range (x : float) : bool := ltb (opp np_pi) x && leb x np_pi.

(** An oracle whose answer is NaN. *)
Definition nan_cost (s : unit) (params : list float) : float * unit :=
  (nan, s).



End Float64.

(** ** The demo's data, in exact arithmetic *)

Module Demo.
Import Exact.

(** init_params = [0.3, 0.25], init_generators = ["X", "Y"] *)
Definition init_params : list R := [(3 / 10)%R; (1 / 4)%R].
Definition init_generators : list string := ["X"; "Y"].

(** A deterministic oracle, sinusoidal in each parameter:
    [cost(params) = sin(params[0]) + cos(params[1])]. *)
Definition cost (s : unit) (params : list R) : R * unit :=
  ((sin (nth 0 params 0%R) + cos (nth 1 params 0%R))%R, s).

(** The same landscape for Rotoselect, blind to the generators: the three
    candidates at an index always tie. *)
Definition cost_rsel (s : unit) (x : list R * list string) : R * unit :=
  cost s (fst x).

Definition w0 : world unit (list R) := World tt [].
Definition w0_rsel : world unit (list R * list string) := World tt [].

End Demo.

(** * Theorems *)

(** ** Running the monad *)

Lemma bind_ok {W A B} (m : M W A) (f : A -> M W B) w a w' :
  m w = (Ok a, w') -> bind m f w = f a w'.
Proof. intros E. unfold bind. now rewrite E. Qed.

Lemma bind_raise {W A B} (m : M W A) (f : A -> M W B) w e w' :
  m w = (Raise e, w') -> bind m f w = (Raise e, w').
Proof. intros E. unfold bind. now rewrite E. Qed.

Lemma call_run {St I R} (cost : St -> I -> R * St) x w :
  call cost x w
  = (Ok (fst (cost (ost w) x)), World (snd (cost (ost w) x)) (log w ++ [x])).
Proof. unfold call. now destruct (cost (ost w) x). Qed.

(** ** Indexing *)

Lemma norm_index_nonneg n i :
  0 <= i < Z.of_nat n -> norm_index n i = Some (Z.to_nat i).
Proof.
  intros Hi. unfold norm_index.
  destruct (Z.leb_spec 0 i); [|lia].
  destruct (Z.ltb_spec i (Z.of_nat n)); [|lia]. reflexivity.
Qed.

Lemma norm_index_negative n i :
  - Z.of_nat n <= i < 0 -> norm_index n i = Some (Z.to_nat (Z.of_nat n + i)).
Proof.
  intros Hi. unfold norm_index.
  destruct (Z.leb_spec 0 i); [lia|]. cbn [andb].
  destruct (Z.leb_spec (- Z.of_nat n) i); [|lia].
  destruct (Z.ltb_spec i 0); [|lia]. reflexivity.
Qed.

Lemma norm_index_outside n i :
  i < - Z.of_nat n \/ Z.of_nat n <= i -> norm_index n i = None.
Proof.
  intros Hi. unfold norm_index.
  destruct (Z.leb_spec 0 i), (Z.ltb_spec i (Z.of_nat n)),
    (Z.leb_spec (- Z.of_nat n) i), (Z.ltb_spec i 0); cbn [andb]; try reflexivity; lia.
Qed.

Lemma norm_index_lt n i k : norm_index n i = Some k -> (k < n)%nat.
Proof.
  unfold norm_index.
  destruct (Z.leb_spec 0 i), (Z.ltb_spec i (Z.of_nat n)),
    (Z.leb_spec (- Z.of_nat n) i), (Z.ltb_spec i 0); cbn [andb];
    intros [= <-]; lia.
Qed.

Lemma norm_index_of_nat n (k : nat) :
  (k < n)%nat -> norm_index n (Z.of_nat k) = Some k.
Proof.
  intros Hk. rewrite norm_index_nonneg by lia. now rewrite Nat2Z.id.
Qed.

Lemma setitem_run {W A} (l : list A) i v k (w : W) :
  norm_index (length l) i = Some k -> setitem l i v w = (Ok (<[k:=v]> l), w).
Proof. intros E. unfold setitem. now rewrite E. Qed.

Lemma setitem_fails {W A} (l : list A) i v (w : W) :
  norm_index (length l) i = None -> setitem l i v w = (Raise IndexError, w).
Proof. intros E. unfold setitem. now rewrite E. Qed.

Lemma getitem_insert_run {W A} (l : list A) i v k (w : W) :
  norm_index (length l) i = Some k -> getitem (<[k:=v]> l) i w = (Ok v, w).
Proof.
  intros E. unfold getitem. rewrite length_insert, E.
  rewrite list_lookup_insert_eq by eauto using norm_index_lt. reflexivity.
Qed.

Lemma norm_index_insert {A} (l : list A) k (v : A) i :
  norm_index (length (<[k:=v]> l)) i = norm_index (length l) i.
Proof. now rewrite length_insert. Qed.

(** ** One update of one parameter *)

Ltac run_set E :=
  erewrite bind_ok
    by (apply setitem_run; rewrite ?norm_index_insert; exact E);
  cbv beta iota; rewrite ?list_insert_insert_eq.
Ltac run_get E :=
  erewrite bind_ok
    by (apply getitem_insert_run; rewrite ?norm_index_insert; exact E);
  cbv beta iota.
Ltac run_call :=
  erewrite bind_ok by apply call_run; cbv beta iota; cbn [ost log].
Ltac run_with tac :=
  erewrite bind_ok by tac; cbv beta iota.

Section UpdateRule.
Context {R : Type} `{Num R} {St : Type}.

(** opt_theta on an index that denotes position [k]: three oracle calls,
    at [params[k]] = 0, pi/2, -pi/2 in that order, then the commit. *)
Lemma opt_theta_run d (params : list R) (cost : St -> list R -> R * St) w k :
  norm_index (length params) d = Some k ->
  let r0 := cost (ost w) (<[k:=zero]> params) in
  let r1 := cost (snd r0) (<[k:=div pi two]> params) in
  let r2 := cost (snd r1) (<[k:=div (neg pi) two]> params) in
  opt_theta d params cost w
  = (Ok (<[k:=committed (fst r0) (fst r1) (fst r2)]> params),
     World (snd r2)
       (log w ++ [<[k:=zero]> params; <[k:=div pi two]> params;
                  <[k:=div (neg pi) two]> params])).
Proof.
  intros E r0 r1 r2. unfold opt_theta.
  run_set E. run_call. run_set E. run_call. run_set E. run_call.
  run_set E. run_get E.
  unfold committed, angle_a. fold r0 r1 r2.
  rewrite <- !app_assoc. cbn [app].
  destruct (leb _ _).
  - run_get E. rewrite (setitem_run _ _ _ k) by (now rewrite norm_index_insert).
    now rewrite list_insert_insert_eq.
  - reflexivity.
Qed.

(** rotosolve on an index that denotes position [k]: the two probes, the
    commit, and one more oracle call on the committed vector. *)
Lemma rotosolve_run d (params : list R) generators (cost : @oracle2 R St)
    M_0 w k :
  norm_index (length params) d = Some k ->
  let r1 := cost (ost w) (<[k:=div pi two]> params, generators) in
  let r2 := cost (snd r1) (<[k:=div (neg pi) two]> params, generators) in
  let p := <[k:=committed M_0 (fst r1) (fst r2)]> params in
  let r3 := cost (snd r2) (p, generators) in
  rotosolve d params generators cost M_0 w
  = (Ok (fst r3, p),
     World (snd r3)
       (log w ++ [(<[k:=div pi two]> params, generators);
                  (<[k:=div (neg pi) two]> params, generators);
                  (p, generators)])).
Proof.
  intros E r1 r2 p r3. unfold rotosolve.
  run_set E. run_call. run_set E. run_call. run_set E. run_get E.
  fold r1 r2.
  assert (Hp : (if leb (sub (div (neg pi) two) (angle_a M_0 (fst r1) (fst r2)))
                       (neg pi)
                then let* x := getitem
                       (<[k:=sub (div (neg pi) two)
                               (angle_a M_0 (fst r1) (fst r2))]> params) d in
                     setitem (<[k:=sub (div (neg pi) two)
                               (angle_a M_0 (fst r1) (fst r2))]> params) d
                       (add x (mul two pi))
                else ret (<[k:=sub (div (neg pi) two)
                               (angle_a M_0 (fst r1) (fst r2))]> params))
               (World (snd r2) ((log w ++ [(<[k:=div pi two]> params, generators)])
                                 ++ [(<[k:=div (neg pi) two]> params, generators)]))
               = (Ok p, World (snd r2) ((log w ++ [(<[k:=div pi two]> params, generators)])
                                 ++ [(<[k:=div (neg pi) two]> params, generators)]))).
  { unfold p, committed. destruct (leb _ _).
    - run_get E. rewrite (setitem_run _ _ _ k) by (now rewrite norm_index_insert).
      now rewrite list_insert_insert_eq.
    - reflexivity. }
  unfold angle_a in Hp.
  erewrite bind_ok by exact Hp. run_call. fold r3.
  rewrite <- !app_assoc. reflexivity.
Qed.

End UpdateRule.

(** ** The generator search at one index *)

Section GeneratorSearch.
Context {R : Type} `{Num R} {St : Type}.
Implicit Types (params : list R) (generators : list string).
Implicit Types (cost : @oracle2 R St).

Lemma rotosolve_probe d params generators g cost M_0 w k :
  norm_index (length params) d = Some k ->
  let c := probe cost k params generators M_0 g (ost w) in
  rotosolve d params (<[k:=g]> generators) cost M_0 w
  = (Ok (snd (fst c), <[k:=fst (fst c)]> params),
     World (snd c)
       (log w ++ probe_calls cost k params generators M_0 g (ost w))).
Proof.
  intros E c. rewrite (rotosolve_run _ _ _ _ _ _ k E). reflexivity.
Qed.

(** The first iteration installs its candidate whatever the incumbent. *)
Lemma helper_body_first d cost M_0 params generators opt w k :
  norm_index (length params) d = Some k ->
  norm_index (length generators) d = Some k ->
  let c := probe cost k params generators M_0 "X" (ost w) in
  helper_body d cost M_0 "X" (params, generators, opt) w
  = (Ok (<[k:=fst (fst c)]> params, <[k:="X"]> generators,
         Some (fst c, "X")),
     World (snd c)
       (log w ++ probe_calls cost k params generators M_0 "X" (ost w))).
Proof.
  intros E Eg c. unfold helper_body.
  run_set Eg.
  run_with ltac:(apply rotosolve_probe; exact E).
  change (String.eqb "X" "X") with true. cbv beta iota.
  run_with ltac:(reflexivity).
  run_get E. fold c. now destruct c as [[? ?] ?].
Qed.

(** A later iteration challenges the incumbent with [<=]. *)
Lemma helper_body_later d cost M_0 g params generators inc w k :
  norm_index (length params) d = Some k ->
  norm_index (length generators) d = Some k ->
  String.eqb g "X" = false ->
  let c := probe cost k params generators M_0 g (ost w) in
  helper_body d cost M_0 g (params, generators, Some inc) w
  = (Ok (<[k:=fst (fst c)]> params, <[k:=g]> generators,
         Some (challenge (fst c, g) inc)),
     World (snd c)
       (log w ++ probe_calls cost k params generators M_0 g (ost w))).
Proof.
  intros E Eg Hg c. unfold helper_body.
  run_set Eg.
  run_with ltac:(apply rotosolve_probe; exact E).
  rewrite Hg. destruct inc as [[t0 c0] g0].
  run_with ltac:(reflexivity).
  unfold challenge. cbn [fst snd]. fold c.
  destruct (leb (snd (fst c)) c0).
  - run_get E. now destruct c as [[? ?] ?].
  - reflexivity.
Qed.

(** A candidate does not depend on what slot [k] held before. *)
Lemma probe_insert cost k params generators u g' M_0 g s :
  probe cost k (<[k:=u]> params) (<[k:=g']> generators) M_0 g s
  = probe cost k params generators M_0 g s.
Proof. unfold probe. now rewrite !list_insert_insert_eq. Qed.

Lemma probe_insert_params cost k params generators u M_0 g s :
  probe cost k (<[k:=u]> params) generators M_0 g s
  = probe cost k params generators M_0 g s.
Proof. unfold probe. now rewrite !list_insert_insert_eq. Qed.

Lemma probe_calls_insert cost k params generators u g' M_0 g s :
  probe_calls cost k (<[k:=u]> params) (<[k:=g']> generators) M_0 g s
  = probe_calls cost k params generators M_0 g s.
Proof.
  unfold probe_calls. rewrite probe_insert.
  now rewrite !list_insert_insert_eq.
Qed.

Lemma probe_calls_insert_params cost k params generators u M_0 g s :
  probe_calls cost k (<[k:=u]> params) generators M_0 g s
  = probe_calls cost k params generators M_0 g s.
Proof.
  unfold probe_calls. rewrite probe_insert_params.
  now rewrite !list_insert_insert_eq.
Qed.

(** The loop of the helper over X, Y, Z, for a given baseline [M_0]. *)
Lemma helper_loop_run d params generators cost M_0 w k :
  norm_index (length params) d = Some k ->
  norm_index (length generators) d = Some k ->
  let cX := probe cost k params generators M_0 "X" (ost w) in
  let cY := probe cost k params generators M_0 "Y" (snd cX) in
  let cZ := probe cost k params generators M_0 "Z" (snd cY) in
  for_ ["X"; "Y"; "Z"] (helper_body d cost M_0) (params, generators, None) w
  = (Ok (<[k:=fst (fst cZ)]> params, <[k:="Z"]> generators,
         Some (select (fst cX) (fst cY) (fst cZ))),
     World (snd cZ)
       (log w ++ probe_calls cost k params generators M_0 "X" (ost w)
              ++ probe_calls cost k params generators M_0 "Y" (snd cX)
              ++ probe_calls cost k params generators M_0 "Z" (snd cY))).
Proof.
  intros E Eg cX cY cZ. cbn [for_].
  run_with ltac:(apply helper_body_first; [exact E | exact Eg]).
  cbn [ost log].
  run_with ltac:(apply helper_body_later;
                 rewrite ?norm_index_insert; [exact E | exact Eg | reflexivity]).
  cbn [ost log].
  run_with ltac:(apply helper_body_later;
                 rewrite ?norm_index_insert; [exact E | exact Eg | reflexivity]).
  cbn [ost log].
  rewrite !list_insert_insert_eq, !probe_insert, !probe_calls_insert.
  rewrite <- !app_assoc. reflexivity.
Qed.

(** The helper: baseline, then X, Y, Z; it returns the selected pair and
    leaves the arrays as the probing of Z left them. *)
Lemma helper_run d params generators cost w k :
  norm_index (length params) d = Some k ->
  norm_index (length generators) d = Some k ->
  let win := winner cost k params generators (ost w) in
  let cZ := cand_Z cost k params generators (ost w) in
  optimal_theta_and_gen_helper d params generators cost w
  = (Ok (fst (fst win), snd win,
         (<[k:=fst (fst cZ)]> params, <[k:="Z"]> generators)),
     World (snd cZ)
       (log w ++ search_calls cost k params generators (ost w))).
Proof.
  intros E Eg win cZ. unfold optimal_theta_and_gen_helper.
  run_set E. run_call.
  run_with ltac:(apply helper_loop_run;
                 rewrite ?norm_index_insert; [exact E | exact Eg]).
  cbn [ost log].
  rewrite !list_insert_insert_eq, !probe_insert_params,
    !probe_calls_insert_params.
  fold (baseline cost k params generators (ost w)).
  fold (cand_X cost k params generators (ost w)).
  fold (cand_Y cost k params generators (ost w)).
  fold (cand_Z cost k params generators (ost w)).
  fold (winner cost k params generators (ost w)).
  fold win cZ.
  destruct win as [[t c] g] eqn:Ew. cbn [fst snd].
  unfold search_calls. rewrite <- !app_assoc. reflexivity.
Qed.

(** One iteration of rotoselect_cycle: the returned winner overwrites
    what the probing left in slot [k]. *)
Lemma rotoselect_step_run d params generators cost w k :
  norm_index (length params) d = Some k ->
  norm_index (length generators) d = Some k ->
  let win := winner cost k params generators (ost w) in
  rotoselect_step cost d (params, generators) w
  = (Ok (<[k:=fst (fst win)]> params, <[k:=snd win]> generators),
     World (snd (cand_Z cost k params generators (ost w)))
       (log w ++ search_calls cost k params generators (ost w))).
Proof.
  intros E Eg win. unfold rotoselect_step.
  run_with ltac:(apply helper_run; [exact E | exact Eg]).
  run_set E. run_set Eg. reflexivity.
Qed.

End GeneratorSearch.

(** ** Loops and sweeps *)

Lemma for_app {W A S} (l1 l2 : list A) (body : A -> S -> M W S) s w :
  for_ (l1 ++ l2) body s w = bind (for_ l1 body s) (for_ l2 body) w.
Proof.
  revert s w. induction l1 as [|x l1 IH]; intros s w; [reflexivity|].
  cbn [app for_]. unfold bind at 1 2 3.
  destruct (body x s w) as [[s'|e] w']; [|reflexivity].
  rewrite IH. reflexivity.
Qed.

Lemma range_len {A} (l : list A) :
  range (len l) = map Z.of_nat (seq 0 (length l)).
Proof. unfold range, len. now rewrite Nat2Z.id. Qed.

Lemma range_succ (n : nat) :
  range (Z.of_nat (S n)) = range (Z.of_nat n) ++ [Z.of_nat n].
Proof. unfold range. now rewrite !Nat2Z.id, seq_S, map_app. Qed.

Lemma search_calls_length {R} `{Num R} {St}
    (cost : St -> list R * list string -> R * St) k params generators s :
  length (search_calls cost k params generators s) = 10%nat.
Proof. reflexivity. Qed.

Section Sweeps.
Context {R : Type} `{Num R} {St : Type}.

(** The angle of the selected candidate is one of the three committed
    angles. *)
Lemma winner_angle (cost : @oracle2 R St) k params generators s :
  exists M_0 M_0_plus M_0_minus,
    fst (fst (winner cost k params generators s))
    = committed M_0 M_0_plus M_0_minus.
Proof.
  unfold winner, select, challenge.
  repeat match goal with |- context [if ?b then _ else _] => destruct b end;
    cbn [fst snd]; unfold cand_X, cand_Y, cand_Z, probe; cbn [fst snd];
    eauto.
Qed.

(** rotosolve_cycle restricted to the indices [a, a + n). *)
Lemma rotosolve_sweep (cost : St -> list R -> R * St) n :
  forall a (params : list R) w,
    (a + n <= length params)%nat ->
    exists params' w',
      for_ (map Z.of_nat (seq a n)) (fun d p => opt_theta d p cost) params w
      = (Ok params', w')
      /\ length params' = length params
      /\ length (log w') = (length (log w) + 3 * n)%nat
      /\ (forall i, (i < a \/ a + n <= i)%nat -> params' !! i = params !! i)
      /\ (forall i, (a <= i < a + n)%nat ->
            exists M_0 M_0_plus M_0_minus,
              params' !! i = Some (committed M_0 M_0_plus M_0_minus)).
Proof.
  induction n as [|n IH]; intros a params w Hn.
  - exists params, w. cbn. repeat split; try lia; intros i Hi; lia.
  - cbn [seq map for_].
    assert (E : norm_index (length params) (Z.of_nat a) = Some a)
      by (apply norm_index_of_nat; lia).
    erewrite bind_ok by (apply opt_theta_run; exact E).
    set (v := committed _ _ _).
    set (w1 := World _ _).
    destruct (IH (S a) (<[a:=v]> params) w1) as (p' & w' & Hrun & Hlen & Hlog & Hout & Hin).
    { rewrite length_insert. lia. }
    exists p', w'. rewrite length_insert in Hlen.
    split; [exact Hrun|]. split; [exact Hlen|]. split.
    { rewrite Hlog. subst w1. cbn [log]. rewrite length_app. cbn. lia. }
    split.
    + intros i Hi. rewrite Hout by lia.
      apply list_lookup_insert_ne. lia.
    + intros i Hi. destruct (decide (i = a)) as [->|Hne].
      * rewrite Hout by lia.
        rewrite list_lookup_insert_eq by lia. unfold v. eauto.
      * apply Hin. lia.
Qed.

(** rotoselect_cycle restricted to the indices [a, a + n). *)
Lemma rotoselect_sweep (cost : @oracle2 R St) n :
  forall a (params : list R) (generators : list string) w,
    (a + n <= length params)%nat ->
    length generators = length params ->
    exists params' generators' w',
      for_ (map Z.of_nat (seq a n)) (rotoselect_step cost)
        (params, generators) w
      = (Ok (params', generators'), w')
      /\ length params' = length params
      /\ length generators' = length generators
      /\ length (log w') = (length (log w) + 10 * n)%nat
      /\ (forall i, (i < a \/ a + n <= i)%nat ->
            params' !! i = params !! i
            /\ generators' !! i = generators !! i)
      /\ (forall i, (a <= i < a + n)%nat ->
            exists M_0 M_0_plus M_0_minus,
              params' !! i = Some (committed M_0 M_0_plus M_0_minus)).
Proof.
  induction n as [|n IH]; intros a params generators w Hn Hg.
  - exists params, generators, w. cbn. repeat split; try lia; intros i Hi; lia.
  - cbn [seq map for_].
    assert (E : norm_index (length params) (Z.of_nat a) = Some a)
      by (apply norm_index_of_nat; lia).
    assert (Eg : norm_index (length generators) (Z.of_nat a) = Some a)
      by (apply norm_index_of_nat; lia).
    erewrite bind_ok by (apply rotoselect_step_run; [exact E | exact Eg]).
    set (win := winner _ _ _ _ _).
    set (w1 := World _ _).
    destruct (IH (S a) (<[a:=fst (fst win)]> params)
                (<[a:=snd win]> generators) w1)
      as (p' & g' & w' & Hrun & Hlen & Hleng & Hlog & Hout & Hin).
    { rewrite length_insert. lia. }
    { now rewrite !length_insert. }
    exists p', g', w'. rewrite length_insert in Hlen. rewrite length_insert in Hleng.
    split; [exact Hrun|]. split; [exact Hlen|]. split; [exact Hleng|]. split.
    { rewrite Hlog. subst w1. cbn [log].
      rewrite length_app, search_calls_length. lia. }
    split.
    + intros i Hi. destruct (Hout i) as [-> ->]; [lia|].
      split; apply list_lookup_insert_ne; lia.
    + intros i Hi. destruct (decide (i = a)) as [->|Hne].
      * destruct (Hout a) as [-> _]; [lia|].
        rewrite list_lookup_insert_eq by lia.
        destruct (winner_angle cost a params generators (ost w))
          as (m0 & mp & mm & Hw).
        exists m0, mp, mm. unfold win. now rewrite Hw.
      * apply Hin. lia.
Qed.

End Sweeps.

(** * The claims *)

Section Claims.
Context {R : Type} `{Num R} {St : Type}.
Implicit Types (params : list R) (generators : list string).

(** C1. For an index [d] in [0, D), opt_theta calls the oracle at
    [params[d]] = 0, pi/2, -pi/2 (the other entries as they were), computes
    [a = arctan2(2*M0 - M_plus - M_minus, M_plus - M_minus)], sets
    [params[d]] to [-pi/2 - a], and adds [2*pi] exactly when [-pi/2 - a] is
    at or below [-pi]; rotosolve does the same from a supplied [M_0]. *)
Theorem C1_update_rule (d : Z) params (cost : St -> list R -> R * St) w :
  0 <= d < len params ->
  let k := Z.to_nat d in
  let r0 := cost (ost w) (<[k:=zero]> params) in
  let r1 := cost (snd r0) (<[k:=div pi two]> params) in
  let r2 := cost (snd r1) (<[k:=div (neg pi) two]> params) in
  let a := arctan2 (sub (sub (mul two (fst r0)) (fst r1)) (fst r2))
                   (sub (fst r1) (fst r2)) in
  let t := sub (div (neg pi) two) a in
  (exists w',
     opt_theta d params cost w
     = (Ok (<[k:=if leb t (neg pi) then add t (mul two pi) else t]> params),
        w'))
  /\ forall generators (cost2 : @oracle2 R St) M_0 w2,
       let q1 := cost2 (ost w2) (<[k:=div pi two]> params, generators) in
       let q2 := cost2 (snd q1) (<[k:=div (neg pi) two]> params, generators) in
       let a2 := arctan2 (sub (sub (mul two M_0) (fst q1)) (fst q2))
                         (sub (fst q1) (fst q2)) in
       let t2 := sub (div (neg pi) two) a2 in
       exists c w',
         rotosolve d params generators cost2 M_0 w2
         = (Ok (c, <[k:=if leb t2 (neg pi) then add t2 (mul two pi) else t2]>
                      params),
            w').
Proof.
  intros Hd k r0 r1 r2 a t.
  assert (E : norm_index (length params) d = Some k)
    by (apply norm_index_nonneg; exact Hd).
  split.
  - eexists. rewrite (opt_theta_run _ _ _ _ k E). reflexivity.
  - intros generators cost2 M_0 w2 q1 q2 a2 t2.
    do 2 eexists. rewrite (rotosolve_run _ _ _ _ _ _ k E). reflexivity.
Qed.

(** What the code does where C3 counts 2.  On an index in [0, D),
    opt_theta (no [M_0] supplied) calls the oracle exactly 3 times.  rotosolve (with [M_0]
    supplied) also calls it exactly 3 times: the two probes at pi/2 and
    -pi/2, and one evaluation at the committed angle, whose value it
    returns. *)
Theorem C3_calls_per_update (d : Z) params (cost : St -> list R -> R * St) w :
  0 <= d < len params ->
  (exists p' w',
     opt_theta d params cost w = (Ok p', w')
     /\ length (log w') = (length (log w) + 3)%nat)
  /\ forall generators (cost2 : @oracle2 R St) M_0 w2,
       let k := Z.to_nat d in
       let q1 := cost2 (ost w2) (<[k:=div pi two]> params, generators) in
       let q2 := cost2 (snd q1) (<[k:=div (neg pi) two]> params, generators) in
       exists c p' w',
         rotosolve d params generators cost2 M_0 w2 = (Ok (c, p'), w')
         /\ length (log w') = (length (log w2) + 3)%nat
         /\ log w' = log w2 ++ [(<[k:=div pi two]> params, generators);
                                (<[k:=div (neg pi) two]> params, generators);
                                (p', generators)]
         /\ c = fst (cost2 (snd q2) (p', generators)).
Proof.
  intros Hd.
  assert (E : norm_index (length params) d = Some (Z.to_nat d))
    by (apply norm_index_nonneg; exact Hd).
  split.
  - do 2 eexists. rewrite (opt_theta_run _ _ _ _ _ E). split; [reflexivity|].
    cbn [log]. rewrite length_app. reflexivity.
  - intros generators cost2 M_0 w2 k q1 q2.
    do 3 eexists. rewrite (rotosolve_run _ _ _ _ _ _ _ E).
    split; [reflexivity|]. cbn [log ost]. split; [|split; reflexivity].
    rewrite length_app. reflexivity.
Qed.

(** The whole cycle in terms of the sweep. *)
Lemma rotoselect_cycle_run (cost : @oracle2 R St) params generators w :
  length generators = length params ->
  exists params' generators' w',
    rotoselect_cycle cost params generators w
    = (Ok (params', generators'), w')
    /\ length params' = length params
    /\ length generators' = length generators
    /\ length (log w') = (length (log w) + 10 * length params)%nat
    /\ forall i, (i < length params)%nat ->
         exists M_0 M_0_plus M_0_minus,
           params' !! i = Some (committed M_0 M_0_plus M_0_minus).
Proof.
  intros Hg. unfold rotoselect_cycle. rewrite range_len.
  destruct (rotoselect_sweep cost (length params) 0%nat params generators w)
    as (p' & g' & w' & Hrun & Hlen & Hleng & Hlog & _ & Hin); [lia | exact Hg |].
  exists p', g', w'. repeat split; try assumption.
  intros i Hi. apply Hin. lia.
Qed.

Lemma rotosolve_cycle_run (cost : St -> list R -> R * St) params w :
  exists params' w',
    rotosolve_cycle cost params w = (Ok params', w')
    /\ length params' = length params
    /\ length (log w') = (length (log w) + 3 * length params)%nat
    /\ forall i, (i < length params)%nat ->
         exists M_0 M_0_plus M_0_minus,
           params' !! i = Some (committed M_0 M_0_plus M_0_minus).
Proof.
  unfold rotosolve_cycle. rewrite range_len.
  destruct (rotosolve_sweep cost (length params) 0%nat params w)
    as (p' & w' & Hrun & Hlen & Hlog & _ & Hin); [lia|].
  exists p', w'. repeat split; try assumption.
  intros i Hi. apply Hin. lia.
Qed.

(** What the code does where C2 counts 7.  At every index the cycle makes
    exactly 10 oracle calls: the shared baseline at [params[d]] = 0, then for each of
    X, Y, Z the two probes at pi/2 and -pi/2 and one evaluation at the
    committed angle (the cost the candidates are compared by); a whole
    cycle makes 10 * D calls. *)
Theorem C2_calls_per_index params generators (cost : @oracle2 R St) w :
  length generators = length params ->
  (forall d, 0 <= d < len params ->
     let k := Z.to_nat d in
     let b := baseline cost k params generators (ost w) in
     exists s' w',
       rotoselect_step cost d (params, generators) w = (Ok s', w')
       /\ log w'
          = log w
            ++ [(<[k:=zero]> params, generators)]
            ++ probe_calls cost k params generators (fst b) "X" (snd b)
            ++ probe_calls cost k params generators (fst b) "Y"
                 (snd (cand_X cost k params generators (ost w)))
            ++ probe_calls cost k params generators (fst b) "Z"
                 (snd (cand_Y cost k params generators (ost w)))
       /\ length (log w') = (length (log w) + (1 + 3 * 3))%nat)
  /\ exists params' generators' w',
       rotoselect_cycle cost params generators w
       = (Ok (params', generators'), w')
       /\ length (log w') = (length (log w) + 10 * length params)%nat.
Proof.
  intros Hg. split.
  - intros d Hd k b.
    assert (E : norm_index (length params) d = Some k)
      by (apply norm_index_nonneg; exact Hd).
    assert (Eg : norm_index (length generators) d = Some k)
      by (rewrite Hg; exact E).
    do 2 eexists. rewrite (rotoselect_step_run _ _ _ _ _ _ E Eg).
    split; [reflexivity|]. cbn [log]. split; [reflexivity|].
    rewrite length_app, search_calls_length. reflexivity.
  - destruct (rotoselect_cycle_run cost params generators w Hg)
      as (p' & g' & w' & Hrun & _ & _ & Hlog & _).
    now exists p', g', w'.
Qed.

(** C4.  The helper tries X, Y, Z in this order; X is the first incumbent,
    and a later candidate replaces the incumbent exactly when its cost is
    [<=] the incumbent's.  When the three candidate costs are equal the
    helper returns Z, and the cycle stores Z at that index. *)
Theorem C4_tie_break (d : Z) params generators (cost : @oracle2 R St) w :
  0 <= d < len params ->
  length generators = length params ->
  let k := Z.to_nat d in
  let cX := fst (cand_X cost k params generators (ost w)) in
  let cY := fst (cand_Y cost k params generators (ost w)) in
  let cZ := fst (cand_Z cost k params generators (ost w)) in
  let inc1 := (cX, "X") in
  let inc2 := if leb (snd cY) (snd (fst inc1)) then (cY, "Y") else inc1 in
  let inc3 := if leb (snd cZ) (snd (fst inc2)) then (cZ, "Z") else inc2 in
  (exists arrays w',
     optimal_theta_and_gen_helper d params generators cost w
     = (Ok (fst (fst inc3), snd inc3, arrays), w'))
  /\ (same_cost (snd cX) (snd cY) -> same_cost (snd cY) (snd cZ) ->
      snd inc3 = "Z"
      /\ exists params' generators' w',
           rotoselect_step cost d (params, generators) w
           = (Ok (params', generators'), w')
           /\ generators' !! k = Some "Z").
Proof.
  intros Hd Hg k cX cY cZ inc1 inc2 inc3.
  assert (E : norm_index (length params) d = Some k)
    by (apply norm_index_nonneg; exact Hd).
  assert (Eg : norm_index (length generators) d = Some k)
    by (rewrite Hg; exact E).
  assert (Hwin : winner cost k params generators (ost w) = inc3) by reflexivity.
  split.
  - do 2 eexists. rewrite (helper_run _ _ _ _ _ _ E Eg), Hwin. reflexivity.
  - intros [_ HYX] [_ HZY].
    assert (H3 : snd inc3 = "Z").
    { unfold inc3, inc2, inc1. cbn [fst snd]. rewrite HYX. cbn [fst snd].
      now rewrite HZY. }
    split; [exact H3|].
    do 3 eexists. rewrite (rotoselect_step_run _ _ _ _ _ _ E Eg), Hwin, H3.
    split; [reflexivity|].
    apply list_lookup_insert_eq. rewrite Hg. unfold len in Hd. lia.
Qed.

(** C10.  When the cycle has processed index [d], slot [d] of both arrays
    holds the winner of the search made at [d], not what the probing of the
    last candidate left there, and it still holds it when the cycle ends;
    the slots below [d] are as they were when the cycle reached [d]. *)
Theorem C10_commit (d : Z) params generators (cost : @oracle2 R St) w :
  0 <= d < len params ->
  length generators = length params ->
  let k := Z.to_nat d in
  exists p1 g1 w1 pf gf wf,
    for_ (range d) (rotoselect_step cost) (params, generators) w
    = (Ok (p1, g1), w1)
    /\ (exists r wZ,
          optimal_theta_and_gen_helper d p1 g1 cost w1
          = (Ok (r, (<[k:=fst (fst (cand_Z cost k p1 g1 (ost w1)))]> p1,
                     <[k:="Z"]> g1)), wZ))
    /\ rotoselect_cycle cost params generators w = (Ok (pf, gf), wf)
    /\ pf !! k = Some (fst (fst (winner cost k p1 g1 (ost w1))))
    /\ gf !! k = Some (snd (winner cost k p1 g1 (ost w1)))
    /\ forall e, (e < k)%nat -> pf !! e = p1 !! e /\ gf !! e = g1 !! e.
Proof.
  intros Hd Hg k. unfold len in Hd.
  destruct (rotoselect_sweep cost k 0%nat params generators w)
    as (p1 & g1 & w1 & Hrun1 & Hlen1 & Hleng1 & _ & _ & _); [lia | exact Hg |].
  assert (E : norm_index (length p1) d = Some k)
    by (apply norm_index_nonneg; lia).
  assert (Eg : norm_index (length g1) d = Some k)
    by (apply norm_index_nonneg; lia).
  set (win := winner cost k p1 g1 (ost w1)).
  pose proof (rotoselect_step_run d p1 g1 cost w1 k E Eg) as Hstep.
  cbv zeta in Hstep. fold win in Hstep.
  set (w2 := World _ _) in Hstep.
  destruct (rotoselect_sweep cost (length params - S k) (S k)
              (<[k:=fst (fst win)]> p1) (<[k:=snd win]> g1) w2)
    as (pf & gf & wf & Hrun2 & _ & _ & _ & Hout & _).
  { rewrite length_insert. lia. }
  { rewrite !length_insert. lia. }
  exists p1, g1, w1, pf, gf, wf.
  split; [exact Hrun1|]. split.
  { do 2 eexists. rewrite (helper_run _ _ _ _ _ _ E Eg). reflexivity. }
  split.
  { unfold rotoselect_cycle. rewrite range_len.
    replace (length params) with (k + S (length params - S k))%nat by lia.
    rewrite seq_app, map_app, for_app. cbn [seq map Nat.add].
    rewrite ?Nat.add_0_l.
    erewrite bind_ok by exact Hrun1. cbn [for_].
    replace (Z.of_nat k) with d by lia.
    erewrite bind_ok by exact Hstep. exact Hrun2. }
  split; [|split].
  - destruct (Hout k) as [-> _]; [lia|].
    apply list_lookup_insert_eq. lia.
  - destruct (Hout k) as [_ ->]; [lia|].
    apply list_lookup_insert_eq. lia.
  - intros e He. destruct (Hout e) as [-> ->]; [lia|].
    split; apply list_lookup_insert_ne; lia.
Qed.

(** The driver loops, by the number of iterations: iteration [i] starts
    from what [i] iterations returned, records the oracle's answer there,
    applies one cycle, and what the cycle returns is what [i + 1] iterations
    return. *)
Lemma rotosolve_loop_nat (cost : St -> list R -> R * St) init w (n : nat) :
  exists p c w',
    rotosolve_loop (Z.of_nat n) cost init w = (Ok (p, c), w')
    /\ length p = length init
    /\ length c = n
    /\ length (log w') = (length (log w) + n * (1 + 3 * length init))%nat
    /\ forall i, (i < n)%nat ->
         exists p_i c_i w_i p_next w_next,
           rotosolve_loop (Z.of_nat i) cost init w = (Ok (p_i, c_i), w_i)
           /\ c !! i = Some (fst (cost (ost w_i) p_i))
           /\ rotosolve_cycle cost p_i
                (World (snd (cost (ost w_i) p_i)) (log w_i ++ [p_i]))
              = (Ok p_next, w_next)
           /\ rotosolve_loop (Z.of_nat (S i)) cost init w
              = (Ok (p_next, c_i ++ [fst (cost (ost w_i) p_i)]), w_next).
Proof.
  induction n as [|n IH].
  - exists init, [], w. cbn. repeat split; try lia; intros i Hi; lia.
  - destruct IH as (p & c & w1 & Hrun & Hlen & Hc & Hlog & Hprev).
    destruct (rotosolve_cycle_run cost p
                (World (snd (cost (ost w1) p)) (log w1 ++ [p])))
      as (p' & w2 & Hcyc & Hlen' & Hlog' & _).
    assert (Hnext : rotosolve_loop (Z.of_nat (S n)) cost init w
                    = (Ok (p', c ++ [fst (cost (ost w1) p)]), w2)).
    { unfold rotosolve_loop in *. rewrite range_succ, for_app.
      erewrite bind_ok by exact Hrun. cbn [for_].
      assert (Hbody : rotosolve_loop_body cost (Z.of_nat n) (p, c) w1
                      = (Ok (p', c ++ [fst (cost (ost w1) p)]), w2)).
      { unfold rotosolve_loop_body. run_call. run_with ltac:(exact Hcyc).
        reflexivity. }
      erewrite bind_ok by exact Hbody. reflexivity. }
    exists p', (c ++ [fst (cost (ost w1) p)]), w2.
    split; [exact Hnext|]. split; [congruence|]. split.
    { rewrite length_app. cbn. lia. }
    split.
    { rewrite Hlog'. cbn [log]. rewrite length_app, Hlog, Hlen. cbn. lia. }
    intros i Hi. destruct (decide (i = n)) as [->|Hne].
    + exists p, c, w1, p', w2. split; [exact Hrun|]. split.
      { rewrite lookup_app_r by lia. rewrite Hc, Nat.sub_diag. reflexivity. }
      split; [exact Hcyc | exact Hnext].
    + destruct (Hprev i)
        as (p_i & c_i & w_i & pn & wn & Hi1 & Hi2 & Hi3 & Hi4); [lia|].
      exists p_i, c_i, w_i, pn, wn. split; [exact Hi1|]. split.
      { rewrite lookup_app_l by lia. exact Hi2. }
      split; [exact Hi3 | exact Hi4].
Qed.

Lemma rotoselect_loop_nat (cost : @oracle2 R St) init gens w (n : nat) :
  length gens = length init ->
  exists p g c w',
    rotoselect_loop (Z.of_nat n) cost init gens w = (Ok (p, g, c), w')
    /\ length p = length init
    /\ length g = length init
    /\ length c = n
    /\ length (log w') = (length (log w) + n * (1 + 10 * length init))%nat
    /\ forall i, (i < n)%nat ->
         exists p_i g_i c_i w_i p_next g_next w_next,
           rotoselect_loop (Z.of_nat i) cost init gens w
           = (Ok (p_i, g_i, c_i), w_i)
           /\ c !! i = Some (fst (cost (ost w_i) (p_i, g_i)))
           /\ rotoselect_cycle cost p_i g_i
                (World (snd (cost (ost w_i) (p_i, g_i)))
                   (log w_i ++ [(p_i, g_i)]))
              = (Ok (p_next, g_next), w_next)
           /\ rotoselect_loop (Z.of_nat (S i)) cost init gens w
              = (Ok (p_next, g_next,
                     c_i ++ [fst (cost (ost w_i) (p_i, g_i))]), w_next).
Proof.
  intros Hg. induction n as [|n IH].
  - exists init, gens, [], w. cbn. repeat split; try lia; intros i Hi; lia.
  - destruct IH as (p & g & c & w1 & Hrun & Hlen & Hleng & Hc & Hlog & Hprev).
    destruct (rotoselect_cycle_run cost p g
                (World (snd (cost (ost w1) (p, g))) (log w1 ++ [(p, g)])))
      as (p' & g' & w2 & Hcyc & Hlen' & Hleng' & Hlog' & _); [congruence|].
    assert (Hnext : rotoselect_loop (Z.of_nat (S n)) cost init gens w
                    = (Ok (p', g', c ++ [fst (cost (ost w1) (p, g))]), w2)).
    { unfold rotoselect_loop in *. rewrite range_succ, for_app.
      erewrite bind_ok by exact Hrun. cbn [for_].
      assert (Hbody : rotoselect_loop_body cost (Z.of_nat n) (p, g, c) w1
                      = (Ok (p', g', c ++ [fst (cost (ost w1) (p, g))]), w2)).
      { unfold rotoselect_loop_body. run_call. run_with ltac:(exact Hcyc).
        reflexivity. }
      erewrite bind_ok by exact Hbody. reflexivity. }
    exists p', g', (c ++ [fst (cost (ost w1) (p, g))]), w2.
    split; [exact Hnext|]. split; [congruence|]. split; [congruence|]. split.
    { rewrite length_app. cbn. lia. }
    split.
    { rewrite Hlog'. cbn [log]. rewrite length_app, Hlog, Hlen. cbn. lia. }
    intros i Hi. destruct (decide (i = n)) as [->|Hne].
    + exists p, g, c, w1, p', g', w2. split; [exact Hrun|]. split.
      { rewrite lookup_app_r by lia. rewrite Hc, Nat.sub_diag. reflexivity. }
      split; [exact Hcyc | exact Hnext].
    + destruct (Hprev i)
        as (p_i & g_i & c_i & w_i & pn & gn & wn & Hi1 & Hi2 & Hi3 & Hi4);
        [lia|].
      exists p_i, g_i, c_i, w_i, pn, gn, wn. split; [exact Hi1|]. split.
      { rewrite lookup_app_l by lia. exact Hi2. }
      split; [exact Hi3 | exact Hi4].
Qed.

(** C6.  For every [n_steps >= 0] each driver loop runs to the end, makes
    all [n_steps] cycles (the oracle is called [1 + 3*D], respectively
    [1 + 10*D], times per iteration), and records exactly [n_steps] costs.
    No iteration starts from anything but the initial state; iteration [i]
    starts from the state [i] iterations returned, records the oracle's
    answer on that state as entry [i], then applies one cycle to it, and the
    cycle's result, with the trajectory so extended, is what [i + 1]
    iterations return.  So entry [i] is the cost before cycle [i], every
    cycle's result is kept, and the cost after the last cycle is not in the
    trajectory. *)
Theorem C6_trajectory (n_steps : Z) init_params init_generators
    (cost : St -> list R -> R * St) (cost_rsel : @oracle2 R St) w w2 :
  0 <= n_steps ->
  length init_generators = length init_params ->
  (rotosolve_loop 0 cost init_params w = (Ok (init_params, []), w)
   /\ exists p c w',
       rotosolve_loop n_steps cost init_params w = (Ok (p, c), w')
       /\ len c = n_steps
       /\ len (log w') = len (log w) + n_steps * (1 + 3 * len init_params)
       /\ forall i, 0 <= i < n_steps ->
            exists p_i c_i w_i p_next w_next,
              rotosolve_loop i cost init_params w = (Ok (p_i, c_i), w_i)
              /\ c !! Z.to_nat i = Some (fst (cost (ost w_i) p_i))
              /\ rotosolve_cycle cost p_i
                   (World (snd (cost (ost w_i) p_i)) (log w_i ++ [p_i]))
                 = (Ok p_next, w_next)
              /\ rotosolve_loop (i + 1) cost init_params w
                 = (Ok (p_next, c_i ++ [fst (cost (ost w_i) p_i)]), w_next))
  /\ (rotoselect_loop 0 cost_rsel init_params init_generators w2
      = (Ok (init_params, init_generators, []), w2)
      /\ exists p g c w',
          rotoselect_loop n_steps cost_rsel init_params init_generators w2
          = (Ok (p, g, c), w')
          /\ len c = n_steps
          /\ len (log w') = len (log w2) + n_steps * (1 + 10 * len init_params)
          /\ forall i, 0 <= i < n_steps ->
               exists p_i g_i c_i w_i p_next g_next w_next,
                 rotoselect_loop i cost_rsel init_params init_generators w2
                 = (Ok (p_i, g_i, c_i), w_i)
                 /\ c !! Z.to_nat i = Some (fst (cost_rsel (ost w_i) (p_i, g_i)))
                 /\ rotoselect_cycle cost_rsel p_i g_i
                      (World (snd (cost_rsel (ost w_i) (p_i, g_i)))
                         (log w_i ++ [(p_i, g_i)]))
                    = (Ok (p_next, g_next), w_next)
                 /\ rotoselect_loop (i + 1) cost_rsel init_params
                      init_generators w2
                    = (Ok (p_next, g_next,
                           c_i ++ [fst (cost_rsel (ost w_i) (p_i, g_i))]),
                       w_next)).
Proof.
  intros Hn Hg. unfold len.
  rewrite <- (Z2Nat.id n_steps Hn). split.
  - split; [reflexivity|].
    destruct (rotosolve_loop_nat cost init_params w (Z.to_nat n_steps))
      as (p & c & w' & Hrun & _ & Hc & Hlog & Hprev).
    exists p, c, w'. split; [exact Hrun|]. split; [lia|]. split; [nia|].
    intros i Hi.
    destruct (Hprev (Z.to_nat i))
      as (p_i & c_i & w_i & pn & wn & H1 & H2 & H3 & H4); [lia|].
    exists p_i, c_i, w_i, pn, wn.
    rewrite Z2Nat.id in H1 by lia.
    replace (Z.of_nat (S (Z.to_nat i))) with (i + 1) in H4 by lia.
    repeat split; assumption.
  - split; [reflexivity|].
    destruct (rotoselect_loop_nat cost_rsel init_params init_generators w2
                (Z.to_nat n_steps) Hg)
      as (p & g & c & w' & Hrun & _ & _ & Hc & Hlog & Hprev).
    exists p, g, c, w'. split; [exact Hrun|]. split; [lia|]. split; [nia|].
    intros i Hi.
    destruct (Hprev (Z.to_nat i))
      as (p_i & g_i & c_i & w_i & pn & gn & wn & H1 & H2 & H3 & H4); [lia|].
    exists p_i, g_i, c_i, w_i, pn, gn, wn.
    rewrite Z2Nat.id in H1 by lia.
    replace (Z.of_nat (S (Z.to_nat i))) with (i + 1) in H4 by lia.
    repeat split; assumption.
Qed.

(** C7.  With a deterministic oracle (its answer depends on its argument
    only; a sinusoid in [params[d]] is one), a second opt_theta on the same
    index, nothing else changed in between, commits the value the first
    one committed; it still makes its three oracle calls. *)
Theorem C7_idempotent (d : Z) params (cost : St -> list R -> R * St) w :
  0 <= d < len params ->
  (forall s s' p, fst (cost s p) = fst (cost s' p)) ->
  exists p1 w1 w2,
    opt_theta d params cost w = (Ok p1, w1)
    /\ opt_theta d p1 cost w1 = (Ok p1, w2)
    /\ length (log w2) = (length (log w1) + 3)%nat.
Proof.
  intros Hd Hpure.
  assert (E : norm_index (length params) d = Some (Z.to_nat d))
    by (apply norm_index_nonneg; exact Hd).
  do 3 eexists. split; [apply (opt_theta_run _ _ _ _ _ E)|].
  rewrite (opt_theta_run _ _ _ _ (Z.to_nat d))
    by (rewrite norm_index_insert; exact E).
  cbn [ost log]. rewrite !list_insert_insert_eq.
  split.
  - apply f_equal2; [|reflexivity].
    f_equal. f_equal. f_equal; apply Hpure.
  - cbn [log]. rewrite !length_app. reflexivity.
Qed.

(** C9, as the code has it.  An index [d >= D] or [d < -D] raises
    IndexError at the first statement, before any oracle call.  An index
    with [-D <= d < 0] is accepted: it denotes slot [D + d], which is
    updated like any other. *)
Theorem C9_index (d : Z) params (cost : St -> list R -> R * St) w :
  (d < - len params \/ len params <= d ->
     opt_theta d params cost w = (Raise IndexError, w))
  /\ (- len params <= d < 0 ->
      exists v w',
        opt_theta d params cost w
        = (Ok (<[Z.to_nat (len params + d):=v]> params), w')
        /\ length (log w') = (length (log w) + 3)%nat).
Proof.
  split.
  - intros Hd. unfold opt_theta. apply bind_raise, setitem_fails.
    apply norm_index_outside. exact Hd.
  - intros Hd. pose proof (norm_index_negative (length params) d Hd) as E.
    do 2 eexists. rewrite (opt_theta_run _ _ _ _ _ E).
    split; [reflexivity|]. cbn [log]. rewrite length_app. reflexivity.
Qed.

End Claims.

(** C8, as the code has it.  RGen is an if/elif/elif chain without else: for
    a tag other than X, Y, Z it raises nothing, queues no gate and returns
    normally, which leaves the identity in that slot of the circuit. *)
Theorem C8_unknown_generator {R} (param : R) (generator : string) (wires : Z)
    (tape : list (op R)) :
  generator <> "X" -> generator <> "Y" -> generator <> "Z" ->
  RGen param generator wires tape = (Ok tt, tape).
Proof.
  intros HX HY HZ. unfold RGen.
  apply String.eqb_neq in HX, HY, HZ. now rewrite HX, HY, HZ.
Qed.

(** ** The range of the committed angle, in exact arithmetic *)

Module ExactFacts.
Import Exact.

Lemma Rleb_true x y : Rleb x y = true <-> (x <= y)%R.
Proof. unfold Rleb. destruct (Rle_dec x y); split; intros; try easy. Qed.

Lemma Rleb_false x y : Rleb x y = false <-> (y < x)%R.
Proof.
  unfold Rleb. destruct (Rle_dec x y); split; intros; try easy; lra.
Qed.







End ExactFacts.

(** * The claims on the demo's data *)

Import Exact.

Lemma demo_index_0 : 0 <= 0 < len Demo.init_params.
Proof. unfold len. cbn. lia. Qed.

Lemma demo_index_1 : 0 <= 1 < len Demo.init_params.
Proof. unfold len. cbn. lia. Qed.

Lemma demo_lengths : length Demo.init_generators = length Demo.init_params.
Proof. reflexivity. Qed.

Lemma demo_cost_pure (s s' : unit) (p : list R) :
  fst (Demo.cost s p) = fst (Demo.cost s' p).
Proof. reflexivity. Qed.

(** C1 at index 0 of the demo's initial parameters. *)
Lemma C1_witness :
  0 <= 0 < len Demo.init_params
  /\ exists v w',
       opt_theta 0 Demo.init_params Demo.cost Demo.w0
       = (Ok (<[0%nat:=v]> Demo.init_params), w').
Proof.
  split; [exact demo_index_0|].
  destruct (C1_update_rule 0 Demo.init_params Demo.cost Demo.w0 demo_index_0)
    as [[w' Hw] _].
  eexists. exists w'. exact Hw.
Defined.

(** C2.  The budget the file documents is 7 oracle calls per index: one
    shared baseline and two probes for each of X, Y, Z.  The code misses it:
    on the demo's two parameters one cycle makes 20 oracle calls, 10 per
    index, because rotosolve ends with one more evaluation for each
    candidate. *)
Lemma C2_failing_input :
  exists p g w',
    rotoselect_cycle Demo.cost_rsel Demo.init_params Demo.init_generators
      Demo.w0_rsel
    = (Ok (p, g), w')
    /\ length (log w') = 20%nat
    /\ length (log w') <> (7 * length Demo.init_params)%nat.
Proof.
  destruct (rotoselect_cycle_run Demo.cost_rsel Demo.init_params
              Demo.init_generators Demo.w0_rsel demo_lengths)
    as (p & g & w' & Hrun & _ & _ & Hlog & _).
  exists p, g, w'. split; [exact Hrun|].
  cbn in Hlog. rewrite Hlog. split; [reflexivity|]. cbn. lia.
Qed.

Lemma C2_witness :
  length Demo.init_generators = length Demo.init_params
  /\ exists p g w',
       rotoselect_cycle Demo.cost_rsel Demo.init_params Demo.init_generators
         Demo.w0_rsel
       = (Ok (p, g), w')
       /\ length (log w') = (0 + 10 * 2)%nat.
Proof.
  split; [exact demo_lengths|].
  destruct (C2_calls_per_index Demo.init_params Demo.init_generators
              Demo.cost_rsel Demo.w0_rsel demo_lengths)
    as [_ (p & g & w' & Hrun & Hlog)].
  exists p, g, w'. split; [exact Hrun | exact Hlog].
Defined.

(** C3.  With [M_0] supplied the update is documented to call the oracle
    exactly 2 times.  The code misses it: rotosolve makes 3 calls, the two
    probes and the evaluation it returns. *)
Lemma C3_failing_input :
  exists c p w',
    rotosolve 0 Demo.init_params Demo.init_generators Demo.cost_rsel 0%R
      Demo.w0_rsel
    = (Ok (c, p), w')
    /\ length (log w') = 3%nat
    /\ length (log w') <> 2%nat.
Proof.
  do 3 eexists.
  rewrite (rotosolve_run 0 Demo.init_params Demo.init_generators
             Demo.cost_rsel 0%R Demo.w0_rsel 0%nat eq_refl).
  split; [reflexivity|]. cbn [log Demo.w0_rsel app length].
  split; [reflexivity | lia].
Qed.

Lemma C3_witness :
  0 <= 0 < len Demo.init_params
  /\ (exists p' w',
        opt_theta 0 Demo.init_params Demo.cost Demo.w0 = (Ok p', w')
        /\ length (log w') = (0 + 3)%nat)
  /\ exists c p' w',
       rotosolve 0 Demo.init_params Demo.init_generators Demo.cost_rsel 0%R
         Demo.w0_rsel
       = (Ok (c, p'), w')
       /\ length (log w') = (0 + 3)%nat.
Proof.
  split; [exact demo_index_0|].
  destruct (C3_calls_per_update 0 Demo.init_params Demo.cost Demo.w0
              demo_index_0) as [H1 H2].
  split; [exact H1|].
  destruct (H2 Demo.init_generators Demo.cost_rsel 0%R Demo.w0_rsel)
    as (c & p' & w' & Hrun & Hlen & _).
  exists c, p', w'. split; [exact Hrun | exact Hlen].
Defined.

(** The demo's Rotoselect oracle does not look at the generators, so the
    three candidates of a search have the same cost. *)
Lemma demo_tie_XY :
  same_cost
    (snd (fst (cand_X Demo.cost_rsel 0 Demo.init_params Demo.init_generators tt)))
    (snd (fst (cand_Y Demo.cost_rsel 0 Demo.init_params Demo.init_generators tt))).
Proof. split; apply ExactFacts.Rleb_true, Rle_refl. Qed.

Lemma demo_tie_YZ :
  same_cost
    (snd (fst (cand_Y Demo.cost_rsel 0 Demo.init_params Demo.init_generators tt)))
    (snd (fst (cand_Z Demo.cost_rsel 0 Demo.init_params Demo.init_generators tt))).
Proof. split; apply ExactFacts.Rleb_true, Rle_refl. Qed.

(** C4 on a three-way tie: Z is selected at index 0. *)
Lemma C4_witness :
  0 <= 0 < len Demo.init_params
  /\ length Demo.init_generators = length Demo.init_params
  /\ exists params' generators' w',
       rotoselect_step Demo.cost_rsel 0
         (Demo.init_params, Demo.init_generators) Demo.w0_rsel
       = (Ok (params', generators'), w')
       /\ generators' !! 0%nat = Some "Z".
Proof.
  split; [exact demo_index_0|]. split; [exact demo_lengths|].
  destruct (C4_tie_break 0 Demo.init_params Demo.init_generators
              Demo.cost_rsel Demo.w0_rsel demo_index_0 demo_lengths)
    as [_ Htie].
  destruct (Htie demo_tie_XY demo_tie_YZ) as [_ Hstep]. exact Hstep.
Defined.


(** C6 with the demo's n_steps = 30. *)
Lemma C6_witness :
  0 <= 30
  /\ length Demo.init_generators = length Demo.init_params
  /\ exists p c w',
       rotosolve_loop 30 Demo.cost Demo.init_params Demo.w0 = (Ok (p, c), w')
       /\ len c = 30
       /\ len (log w') = len (log Demo.w0) + 30 * (1 + 3 * len Demo.init_params).
Proof.
  assert (H30 : 0 <= 30) by lia.
  split; [exact H30|]. split; [exact demo_lengths|].
  destruct (C6_trajectory 30 Demo.init_params Demo.init_generators Demo.cost
              Demo.cost_rsel Demo.w0 Demo.w0_rsel H30 demo_lengths)
    as [(_ & p & c & w' & Hrun & Hc & Hlog & _) _].
  exists p, c, w'. split; [exact Hrun|]. split; [exact Hc | exact Hlog].
Defined.

Lemma C7_witness :
  0 <= 0 < len Demo.init_params
  /\ (forall s s' p, fst (Demo.cost s p) = fst (Demo.cost s' p))
  /\ exists p1 w1 w2,
       opt_theta 0 Demo.init_params Demo.cost Demo.w0 = (Ok p1, w1)
       /\ opt_theta 0 p1 Demo.cost w1 = (Ok p1, w2)
       /\ length (log w2) = (length (log w1) + 3)%nat.
Proof.
  split; [exact demo_index_0|]. split; [exact demo_cost_pure|].
  exact (C7_idempotent 0 Demo.init_params Demo.cost Demo.w0 demo_index_0
           demo_cost_pure).
Defined.

(** C8 as claimed fails: the tag "W" raises nothing; the tape is left as it
    was, no gate queued. *)
Lemma C8_counterexample :
  "W" <> "X" /\ "W" <> "Y" /\ "W" <> "Z"
  /\ RGen (3 / 10)%R "W" 0 [] = (Ok tt, [])
  /\ forall e tape', RGen (3 / 10)%R "W" 0 [] <> (Raise e, tape').
Proof. repeat split; try discriminate. Qed.

Lemma C8_witness :
  "W" <> "X" /\ "W" <> "Y" /\ "W" <> "Z"
  /\ RGen (3 / 10)%R "W" 0 [RX 0%R 0] = (Ok tt, [RX 0%R 0]).
Proof.
  assert (HX : "W" <> "X") by discriminate.
  assert (HY : "W" <> "Y") by discriminate.
  assert (HZ : "W" <> "Z") by discriminate.
  split; [exact HX|]. split; [exact HY|]. split; [exact HZ|].
  exact (C8_unknown_generator (3 / 10)%R "W" 0 [RX 0%R 0] HX HY HZ).
Defined.

(** C9 as claimed fails: the index -1 is outside [0, 2) and is accepted; it
    updates the last slot. *)
Lemma C9_counterexample :
  ~ (0 <= -1 < len Demo.init_params)
  /\ exists v w',
       opt_theta (-1) Demo.init_params Demo.cost Demo.w0
       = (Ok [(3 / 10)%R; v], w').
Proof.
  split; [lia|].
  do 2 eexists.
  rewrite (opt_theta_run (-1) Demo.init_params Demo.cost Demo.w0 1%nat eq_refl).
  reflexivity.
Qed.

Lemma C9_witness :
  (2 < - len Demo.init_params \/ len Demo.init_params <= 2)
  /\ opt_theta 2 Demo.init_params Demo.cost Demo.w0 = (Raise IndexError, Demo.w0)
  /\ - len Demo.init_params <= -2 < 0
  /\ exists v w',
       opt_theta (-2) Demo.init_params Demo.cost Demo.w0
       = (Ok (<[Z.to_nat (len Demo.init_params + -2):=v]> Demo.init_params), w')
       /\ length (log w') = (length (log Demo.w0) + 3)%nat.
Proof.
  assert (H2 : 2 < - len Demo.init_params \/ len Demo.init_params <= 2)
    by (right; unfold len; cbn; lia).
  assert (Hm : - len Demo.init_params <= -2 < 0) by (unfold len; cbn; lia).
  split; [exact H2|]. split.
  - destruct (C9_index 2 Demo.init_params Demo.cost Demo.w0) as [Hout _].
    exact (Hout H2).
  - split; [exact Hm|].
    destruct (C9_index (-2) Demo.init_params Demo.cost Demo.w0) as [_ Hneg].
    exact (Hneg Hm).
Defined.

Lemma C10_witness :
  0 <= 1 < len Demo.init_params
  /\ length Demo.init_generators = length Demo.init_params
  /\ exists p1 g1 w1 pf gf wf,
       for_ (range 1) (rotoselect_step Demo.cost_rsel)
         (Demo.init_params, Demo.init_generators) Demo.w0_rsel
       = (Ok (p1, g1), w1)
       /\ rotoselect_cycle Demo.cost_rsel Demo.init_params
            Demo.init_generators Demo.w0_rsel
          = (Ok (pf, gf), wf)
       /\ pf !! 1%nat = Some (fst (fst (winner Demo.cost_rsel 1 p1 g1 (ost w1))))
       /\ gf !! 1%nat = Some (snd (winner Demo.cost_rsel 1 p1 g1 (ost w1))).
Proof.
  split; [exact demo_index_1|]. split; [exact demo_lengths|].
  destruct (C10_commit 1 Demo.init_params Demo.init_generators
              Demo.cost_rsel Demo.w0_rsel demo_index_1 demo_lengths)
    as (p1 & g1 & w1 & pf & gf & wf & H1 & _ & H2 & H3 & H4 & _).
  exists p1, g1, w1, pf, gf, wf. repeat split; assumption.
Defined.

(** * Further properties of the code *)

(** ** The circuit code *)

Lemma getitem_run {W A} (l : list A) i k v (w : W) :
  norm_index (length l) i = Some k -> l !! k = Some v ->
  getitem l i w = (Ok v, w).
Proof. intros E Hv. unfold getitem. now rewrite E, Hv. Qed.

Lemma getitem_fails {W A} (l : list A) i (w : W) :
  norm_index (length l) i = None -> getitem l i w = (Raise IndexError, w).
Proof. intros E. unfold getitem. now rewrite E. Qed.

Lemma RGen_known {R} (param : R) g wires (tape : list (op R)) :
  known_tag g = true ->
  exists o, RGen param g wires tape = (Ok tt, tape ++ [o]).
Proof.
  unfold known_tag, RGen, queue. intros Hg.
  destruct (String.eqb g "X"); [eauto|].
  destruct (String.eqb g "Y"); [eauto|].
  destruct (String.eqb g "Z"); [eauto|discriminate].
Qed.

Lemma RGen_unknown {R} (param : R) g wires (tape : list (op R)) :
  known_tag g = false -> RGen param g wires tape = (Ok tt, tape).
Proof.
  unfold known_tag, RGen. intros Hg.
  destruct (String.eqb g "X"); [discriminate|].
  destruct (String.eqb g "Y"); [discriminate|].
  destruct (String.eqb g "Z"); [discriminate|reflexivity].
Qed.

(** X1.  With the generators X, Y in the first two slots, ansatz_rsel builds
    the circuit of ansatz: the same operations in the same order, and, when
    [params] is too short, the same IndexError at the same point. *)
Theorem X1_ansatz_rsel_XY {R} (params : list R) (rest : list string)
    (tape : list (op R)) :
  ansatz_rsel params ("X" :: "Y" :: rest) tape = ansatz params tape.
Proof.
  unfold ansatz_rsel, ansatz.
  destruct params as [|p0 [|p1 ps]].
  - reflexivity.
  - assert (E0 : norm_index (length [p0]) 0 = Some 0%nat) by reflexivity.
    rewrite (bind_ok _ _ _ p0 tape (getitem_run [p0] 0 0%nat p0 tape E0 eq_refl)).
    rewrite (bind_ok (getitem [p0] 0) _ _ p0 tape
               (getitem_run [p0] 0 0%nat p0 tape E0 eq_refl)).
    erewrite bind_ok
      by (apply (getitem_run _ 0 0%nat "X"); [apply norm_index_nonneg; cbn [length]; lia | reflexivity]).
    reflexivity.
  - set (l := p0 :: p1 :: ps).
    assert (E0 : norm_index (length l) 0 = Some 0%nat)
      by (apply norm_index_nonneg; cbn [length l]; lia).
    assert (E1 : norm_index (length l) 1 = Some 1%nat)
      by (apply norm_index_nonneg; cbn [length l]; lia).
    set (gs := "X" :: "Y" :: rest).
    assert (G0 : norm_index (length gs) 0 = Some 0%nat)
      by (apply norm_index_nonneg; cbn [length gs]; lia).
    assert (G1 : norm_index (length gs) 1 = Some 1%nat)
      by (apply norm_index_nonneg; cbn [length gs]; lia).
    rewrite (bind_ok (getitem l 0) _ _ p0 tape
               (getitem_run l 0 0%nat p0 tape E0 eq_refl)).
    rewrite (bind_ok (getitem l 0) _ _ p0 tape
               (getitem_run l 0 0%nat p0 tape E0 eq_refl)).
    rewrite (bind_ok (getitem gs 0) _ _ "X" tape
               (getitem_run gs 0 0%nat "X" tape G0 eq_refl)).
    unfold bind, RGen, queue. cbn [String.eqb Ascii.eqb Bool.eqb].
    rewrite (getitem_run l 1 1%nat p1 _ E1 eq_refl).
    rewrite (getitem_run gs 1 1%nat "Y" _ G1 eq_refl).
    reflexivity.
Qed.

Lemma getitem_lookup {W A} (l : list A) (k : nat) v (w : W) :
  l !! k = Some v -> getitem l (Z.of_nat k) w = (Ok v, w).
Proof.
  intros Hv. apply (getitem_run l _ k); [|exact Hv].
  apply norm_index_of_nat. eauto using lookup_lt_Some.
Qed.

Lemma getitem_short {W A} (l : list A) (k : nat) (w : W) :
  (length l <= k)%nat -> getitem l (Z.of_nat k) w = (Raise IndexError, w).
Proof.
  intros Hk. apply getitem_fails, norm_index_outside. lia.
Qed.

Lemma RGen_ok {R} (param : R) g wires (tape : list (op R)) :
  exists r,
    RGen param g wires tape = (Ok tt, tape ++ r)
    /\ length r = if known_tag g then 1%nat else 0%nat.
Proof.
  destruct (known_tag g) eqn:Hg.
  - destruct (RGen_known param g wires tape Hg) as [o Ho]. now exists [o].
  - exists []. rewrite app_nil_r. split; [now apply RGen_unknown | reflexivity].
Qed.

Lemma RGen_appends {R} (param : R) g wires (tape : list (op R)) :
  RGen param g wires tape
  = (Ok tt,
     tape ++ (if String.eqb g "X" then [RX param wires]
              else if String.eqb g "Y" then [RY param wires]
              else if String.eqb g "Z" then [RZ param wires]
              else [])).
Proof.
  unfold RGen, queue.
  destruct (String.eqb g "X"); [reflexivity|].
  destruct (String.eqb g "Y"); [reflexivity|].
  destruct (String.eqb g "Z"); [reflexivity|].
  now rewrite app_nil_r.
Qed.

(** X2.  On vectors with at least two entries ansatz_rsel never fails: it
    queues the rotation of slot 0 on wire 0 (RX, RY or RZ by the tag, with
    angle [params[0]]), then the rotation of slot 1 on wire 1, then
    CNOT(0, 1), and nothing else; a slot whose tag is not X, Y or Z
    contributes no operation at all, so the circuit silently has fewer
    gates. *)
Theorem X2_ansatz_rsel_ops {R} (params : list R) (generators : list string)
    p0 p1 g0 g1 (tape : list (op R)) :
  params !! 0%nat = Some p0 -> params !! 1%nat = Some p1 ->
  generators !! 0%nat = Some g0 -> generators !! 1%nat = Some g1 ->
  let rot := fun (g : string) (p : R) (wires : Z) =>
               if String.eqb g "X" then [RX p wires]
               else if String.eqb g "Y" then [RY p wires]
               else if String.eqb g "Z" then [RZ p wires]
               else [] in
  ansatz_rsel params generators tape
  = (Ok tt, tape ++ rot g0 p0 0 ++ rot g1 p1 1 ++ [CNOT 0 1])
  /\ length (rot g0 p0 0) = (if known_tag g0 then 1%nat else 0%nat)
  /\ length (rot g1 p1 1) = (if known_tag g1 then 1%nat else 0%nat).
Proof.
  intros Hp0 Hp1 Hg0 Hg1 rot. split.
  - unfold ansatz_rsel.
    erewrite bind_ok by (apply (getitem_lookup params 0); exact Hp0).
    erewrite bind_ok by (apply (getitem_lookup generators 0); exact Hg0).
    erewrite bind_ok by apply RGen_appends.
    erewrite bind_ok by (apply (getitem_lookup params 1); exact Hp1).
    erewrite bind_ok by (apply (getitem_lookup generators 1); exact Hg1).
    erewrite bind_ok by apply RGen_appends.
    unfold queue, rot. now rewrite <- !app_assoc.
  - unfold rot, known_tag.
    split.
    + destruct (String.eqb g0 "X"), (String.eqb g0 "Y"), (String.eqb g0 "Z");
        reflexivity.
    + destruct (String.eqb g1 "X"), (String.eqb g1 "Y"), (String.eqb g1 "Z");
        reflexivity.
Qed.

Lemma X2_witness :
  Demo.init_params !! 0%nat = Some (3 / 10)%R
  /\ ansatz_rsel Demo.init_params ["Z"; "W"] [RY 0%R 1]
     = (Ok tt, [RY 0%R 1; RZ (3 / 10)%R 0; CNOT 0 1]).
Proof.
  split; [reflexivity|].
  exact (proj1 (X2_ansatz_rsel_ops Demo.init_params ["Z"; "W"]
                  (3 / 10)%R (1 / 4)%R "Z" "W" [RY 0%R 1]
                  eq_refl eq_refl eq_refl eq_refl)).
Defined.

(** X3.  When [params] or [generators] has fewer than two entries,
    ansatz_rsel raises IndexError. *)
Theorem X3_ansatz_rsel_short {R} (params : list R) (generators : list string)
    (tape : list (op R)) :
  (length params < 2)%nat \/ (length generators < 2)%nat ->
  exists tape', ansatz_rsel params generators tape = (Raise IndexError, tape').
Proof.
  intros Hshort. unfold ansatz_rsel.
  destruct (params !! 0%nat) as [p0|] eqn:Hp0.
  2:{ eexists. apply bind_raise, (getitem_short params 0).
      now apply lookup_ge_None. }
  erewrite bind_ok by (apply (getitem_lookup params 0); exact Hp0).
  destruct (generators !! 0%nat) as [g0|] eqn:Hg0.
  2:{ eexists. apply bind_raise, (getitem_short generators 0).
      now apply lookup_ge_None. }
  erewrite bind_ok by (apply (getitem_lookup generators 0); exact Hg0).
  destruct (RGen_ok p0 g0 0 tape) as (r0 & Hr0 & _).
  erewrite bind_ok by exact Hr0.
  destruct (params !! 1%nat) as [p1|] eqn:Hp1.
  2:{ eexists. apply bind_raise, (getitem_short params 1).
      now apply lookup_ge_None. }
  erewrite bind_ok by (apply (getitem_lookup params 1); exact Hp1).
  apply lookup_lt_Some in Hp1.
  eexists. apply bind_raise, (getitem_short generators 1). lia.
Qed.

Lemma X3_witness :
  ((length [(3 / 10)%R] < 2)%nat \/ (length Demo.init_generators < 2)%nat)
  /\ exists tape',
       ansatz_rsel [(3 / 10)%R] Demo.init_generators []
       = (Raise IndexError, tape').
Proof.
  assert (Hs : (length [(3 / 10)%R] < 2)%nat
               \/ (length Demo.init_generators < 2)%nat) by (left; cbn; lia).
  split; [exact Hs|].
  exact (X3_ansatz_rsel_short [(3 / 10)%R] Demo.init_generators [] Hs).
Defined.

(** ** The Rotosolve cycle *)

Section MoreRotosolve.
Context {R : Type} `{Num R} {St : Type}.
Implicit Types (params : list R) (generators : list string).

(** X4.  One Rotosolve cycle never fails, also on an empty vector; it
    returns a vector of the same length and calls the oracle exactly 3 times
    per parameter. *)
Theorem X4_rotosolve_cycle_budget (cost : St -> list R -> R * St) params w :
  exists params' w',
    rotosolve_cycle cost params w = (Ok params', w')
    /\ length params' = length params
    /\ length (log w') = (length (log w) + 3 * length params)%nat.
Proof.
  unfold rotosolve_cycle. rewrite range_len.
  destruct (rotosolve_sweep cost (length params) 0%nat params w)
    as (p' & w' & Hrun & Hlen & Hlog & _); [lia|].
  now exists p', w'.
Qed.

(** X5.  The cycle updates in sequence, not simultaneously: when it reaches
    index [d] the entries from [d] on still hold their initial values, the
    entries below [d] hold their new ones, and the value committed at [d] is
    computed from the oracle's answers on that mixed vector; it is the value
    found at [d] when the cycle ends. *)
Theorem X5_rotosolve_cycle_sequential (d : Z) params
    (cost : St -> list R -> R * St) w :
  0 <= d < len params ->
  let k := Z.to_nat d in
  exists p1 w1 pf wf,
    for_ (range d) (fun d p => opt_theta d p cost) params w = (Ok p1, w1)
    /\ (forall e, (k <= e)%nat -> p1 !! e = params !! e)
    /\ rotosolve_cycle cost params w = (Ok pf, wf)
    /\ (let r0 := cost (ost w1) (<[k:=zero]> p1) in
        let r1 := cost (snd r0) (<[k:=div pi two]> p1) in
        let r2 := cost (snd r1) (<[k:=div (neg pi) two]> p1) in
        pf !! k = Some (committed (fst r0) (fst r1) (fst r2)))
    /\ forall e, (e < k)%nat -> pf !! e = p1 !! e.
Proof.
  intros Hd k. unfold len in Hd.
  destruct (rotosolve_sweep cost k 0%nat params w)
    as (p1 & w1 & Hrun1 & Hlen1 & _ & Hout1 & _); [lia|].
  assert (E : norm_index (length p1) d = Some k)
    by (apply norm_index_nonneg; lia).
  pose proof (opt_theta_run d p1 cost w1 k E) as Hstep. cbv zeta in Hstep.
  set (v := committed _ _ _) in Hstep. set (w2 := World _ _) in Hstep.
  destruct (rotosolve_sweep cost (length params - S k) (S k) (<[k:=v]> p1) w2)
    as (pf & wf & Hrun2 & _ & _ & Hout2 & _).
  { rewrite length_insert. lia. }
  exists p1, w1, pf, wf.
  split; [exact Hrun1|]. split.
  { intros e He. apply Hout1. lia. }
  split.
  { unfold rotosolve_cycle. rewrite range_len.
    replace (length params) with (k + S (length params - S k))%nat by lia.
    rewrite seq_app, map_app, for_app. cbn [seq map Nat.add].
    rewrite ?Nat.add_0_l.
    erewrite bind_ok by exact Hrun1. cbn [for_].
    replace (Z.of_nat k) with d by lia.
    erewrite bind_ok by exact Hstep. exact Hrun2. }
  split.
  - cbv zeta. rewrite Hout2 by lia. apply list_lookup_insert_eq. lia.
  - intros e He. rewrite Hout2 by lia. apply list_lookup_insert_ne. lia.
Qed.

(** X6.  The update at an index does not read the value stored there: with
    any other value in slot [d] beforehand, opt_theta returns the same vector
    and makes the same oracle calls, and so does one step of the Rotoselect
    cycle. *)
Theorem X6_update_ignores_current (d : Z) params generators u
    (cost : St -> list R -> R * St) (cost2 : @oracle2 R St) w w2 k :
  norm_index (length params) d = Some k ->
  norm_index (length generators) d = Some k ->
  opt_theta d (<[k:=u]> params) cost w = opt_theta d params cost w
  /\ rotoselect_step cost2 d (<[k:=u]> params, generators) w2
     = rotoselect_step cost2 d (params, generators) w2.
Proof.
  intros E Eg. split.
  - rewrite (opt_theta_run d (<[k:=u]> params) cost w k)
      by (rewrite norm_index_insert; exact E).
    rewrite (opt_theta_run d params cost w k E).
    now rewrite !list_insert_insert_eq.
  - rewrite (rotoselect_step_run d (<[k:=u]> params) generators cost2 w2 k)
      by (rewrite ?norm_index_insert; assumption).
    rewrite (rotoselect_step_run d params generators cost2 w2 k E Eg).
    unfold winner, search_calls, cand_Z, cand_Y, cand_X, baseline.
    now rewrite !list_insert_insert_eq, !probe_insert_params,
      !probe_calls_insert_params.
Qed.

End MoreRotosolve.

Lemma X5_witness :
  0 <= 1 < len Demo.init_params
  /\ exists p1 w1 pf wf,
       for_ (range 1) (fun d p => opt_theta d p Demo.cost) Demo.init_params
         Demo.w0
       = (Ok p1, w1)
       /\ p1 !! 1%nat = Demo.init_params !! 1%nat
       /\ rotosolve_cycle Demo.cost Demo.init_params Demo.w0 = (Ok pf, wf)
       /\ pf !! 0%nat = p1 !! 0%nat.
Proof.
  split; [exact demo_index_1|].
  destruct (X5_rotosolve_cycle_sequential 1 Demo.init_params Demo.cost Demo.w0
              demo_index_1)
    as (p1 & w1 & pf & wf & H1 & H2 & H3 & _ & H5).
  exists p1, w1, pf, wf. split; [exact H1|]. split; [apply H2; cbn; lia|].
  split; [exact H3|]. apply H5. cbn. lia.
Defined.

Lemma X6_witness :
  norm_index (length Demo.init_params) (-1) = Some 1%nat
  /\ norm_index (length Demo.init_generators) (-1) = Some 1%nat
  /\ opt_theta (-1) (<[1%nat:=7%R]> Demo.init_params) Demo.cost Demo.w0
     = opt_theta (-1) Demo.init_params Demo.cost Demo.w0.
Proof.
  split; [reflexivity|]. split; [reflexivity|].
  exact (proj1 (X6_update_ignores_current (-1) Demo.init_params
                  Demo.init_generators 7%R Demo.cost Demo.cost_rsel
                  Demo.w0 Demo.w0_rsel 1%nat eq_refl eq_refl)).
Defined.

(** ** The Rotoselect cycle *)

Section MoreRotoselect.
Context {R : Type} `{Num R} {St : Type}.
Implicit Types (params : list R) (generators : list string).
Implicit Types (cost : @oracle2 R St).

Lemma winner_tag cost k params generators s :
  let g := snd (winner cost k params generators s) in
  g = "X" \/ g = "Y" \/ g = "Z".
Proof.
  unfold winner, select, challenge.
  repeat match goal with |- context [if ?b then _ else _] => destruct b end;
    cbn [snd]; auto.
Qed.

(** The cycle over the indices [a, a + n), for arrays that both reach
    [a + n]. *)
Lemma rotoselect_sweep_tags cost n :
  forall a params generators w,
    (a + n <= length params)%nat ->
    (a + n <= length generators)%nat ->
    exists params' generators' w',
      for_ (map Z.of_nat (seq a n)) (rotoselect_step cost)
        (params, generators) w
      = (Ok (params', generators'), w')
      /\ length params' = length params
      /\ length generators' = length generators
      /\ length (log w') = (length (log w) + 10 * n)%nat
      /\ (forall i, (i < a \/ a + n <= i)%nat ->
            params' !! i = params !! i
            /\ generators' !! i = generators !! i)
      /\ (forall i, (a <= i < a + n)%nat ->
            exists g, generators' !! i = Some g
                      /\ (g = "X" \/ g = "Y" \/ g = "Z")).
Proof.
  induction n as [|n IH]; intros a params generators w Hn Hg.
  - exists params, generators, w. cbn.
    repeat split; try lia; intros i Hi; lia.
  - cbn [seq map for_].
    assert (E : norm_index (length params) (Z.of_nat a) = Some a)
      by (apply norm_index_of_nat; lia).
    assert (Eg : norm_index (length generators) (Z.of_nat a) = Some a)
      by (apply norm_index_of_nat; lia).
    erewrite bind_ok by (apply rotoselect_step_run; [exact E | exact Eg]).
    set (win := winner _ _ _ _ _).
    set (w1 := World _ _).
    destruct (IH (S a) (<[a:=fst (fst win)]> params)
                (<[a:=snd win]> generators) w1)
      as (p' & g' & w' & Hrun & Hlen & Hleng & Hlog & Hout & Hin).
    { rewrite length_insert. lia. }
    { rewrite length_insert. lia. }
    exists p', g', w'. rewrite length_insert in Hlen.
    rewrite length_insert in Hleng.
    split; [exact Hrun|]. split; [exact Hlen|]. split; [exact Hleng|]. split.
    { rewrite Hlog. subst w1. cbn [log].
      rewrite length_app, search_calls_length. lia. }
    split.
    + intros i Hi. destruct (Hout i) as [-> ->]; [lia|].
      split; apply list_lookup_insert_ne; lia.
    + intros i Hi. destruct (decide (i = a)) as [->|Hne].
      * destruct (Hout a) as [_ ->]; [lia|].
        rewrite list_lookup_insert_eq by lia.
        exists (snd win). split; [reflexivity|]. apply winner_tag.
      * apply Hin. lia.
Qed.

(** At an index that [params] has and [generators] lacks, the step makes
    the baseline call and then fails on [generators[d] = "X"]. *)
Lemma rotoselect_step_short cost d params generators w k :
  norm_index (length params) d = Some k ->
  norm_index (length generators) d = None ->
  rotoselect_step cost d (params, generators) w
  = (Raise IndexError,
     World (snd (cost (ost w) (<[k:=zero]> params, generators)))
       (log w ++ [(<[k:=zero]> params, generators)])).
Proof.
  intros E Eg. unfold rotoselect_step.
  apply bind_raise. unfold optimal_theta_and_gen_helper.
  run_set E. run_call.
  apply bind_raise. cbn [for_]. apply bind_raise.
  unfold helper_body. apply bind_raise, setitem_fails. exact Eg.
Qed.

(** X7.  When [generators] is at least as long as [params], the cycle never
    fails, and afterwards each of the first D generator slots holds X, Y or
    Z, whatever it held before; the slots from D on are untouched. *)
Theorem X7_generators_after_cycle cost params generators w :
  (length params <= length generators)%nat ->
  exists params' generators' w',
    rotoselect_cycle cost params generators w
    = (Ok (params', generators'), w')
    /\ length params' = length params
    /\ length generators' = length generators
    /\ (forall i, (i < length params)%nat ->
          exists g, generators' !! i = Some g
                    /\ (g = "X" \/ g = "Y" \/ g = "Z"))
    /\ forall i, (length params <= i)%nat ->
         generators' !! i = generators !! i.
Proof.
  intros Hg. unfold rotoselect_cycle. rewrite range_len.
  destruct (rotoselect_sweep_tags cost (length params) 0%nat params
              generators w)
    as (p' & g' & w' & Hrun & Hlen & Hleng & _ & Hout & Hin); [lia | lia |].
  exists p', g', w'. repeat split; try assumption.
  - intros i Hi. apply Hin. lia.
  - intros i Hi. apply Hout. lia.
Qed.

(** X8.  When [generators] is shorter than [params], the cycle raises
    IndexError: it processes the indices [generators] has, makes the
    baseline call of the next index, and fails on the first assignment into
    [generators]. *)
Theorem X8_generators_too_short cost params generators w :
  (length generators < length params)%nat ->
  exists w',
    rotoselect_cycle cost params generators w = (Raise IndexError, w')
    /\ length (log w') = (length (log w) + 10 * length generators + 1)%nat.
Proof.
  intros Hg. unfold rotoselect_cycle. rewrite range_len.
  set (m := length generators).
  replace (length params) with (m + S (length params - S m))%nat by lia.
  rewrite seq_app, map_app, for_app. cbn [seq map Nat.add].
  rewrite ?Nat.add_0_l.
  destruct (rotoselect_sweep_tags cost m 0%nat params generators w)
    as (p1 & g1 & w1 & Hrun & Hlen & Hleng & Hlog & _ & _); [lia | lia |].
  erewrite bind_ok by exact Hrun. cbn [for_].
  eexists. split.
  - apply bind_raise. apply (rotoselect_step_short _ _ _ _ _ m).
    + apply norm_index_of_nat. lia.
    + apply norm_index_outside. lia.
  - cbn [log]. rewrite length_app, Hlog. cbn. lia.
Qed.

End MoreRotoselect.

Lemma X7_witness :
  (length Demo.init_params <= length ["W"; "Y"; "Q"])%nat
  /\ exists params' generators' w',
       rotoselect_cycle Demo.cost_rsel Demo.init_params ["W"; "Y"; "Q"]
         Demo.w0_rsel
       = (Ok (params', generators'), w')
       /\ generators' !! 2%nat = Some "Q".
Proof.
  assert (Hl : (length Demo.init_params <= length ["W"; "Y"; "Q"])%nat)
    by (cbn; lia).
  split; [exact Hl|].
  destruct (X7_generators_after_cycle Demo.cost_rsel Demo.init_params
              ["W"; "Y"; "Q"] Demo.w0_rsel Hl)
    as (p' & g' & w' & Hrun & _ & _ & _ & Hrest).
  exists p', g', w'. split; [exact Hrun|]. apply (Hrest 2%nat). cbn. lia.
Defined.

Lemma X8_witness :
  (length ["X"] < length Demo.init_params)%nat
  /\ exists w',
       rotoselect_cycle Demo.cost_rsel Demo.init_params ["X"] Demo.w0_rsel
       = (Raise IndexError, w')
       /\ length (log w') = 11%nat.
Proof.
  assert (Hl : (length ["X"] < length Demo.init_params)%nat) by (cbn; lia).
  split; [exact Hl|].
  exact (X8_generators_too_short Demo.cost_rsel Demo.init_params ["X"]
           Demo.w0_rsel Hl).
Defined.

(** ** The driver loops *)

Lemma for_same_length {W A S} (body : A -> S -> M W S) (l l' : list A) :
  (forall i j s, body i s = body j s) ->
  length l = length l' ->
  forall s w, for_ l body s w = for_ l' body s w.
Proof.
  intros Hbody. revert l'.
  induction l as [|x l IH]; intros [|y l'] Hlen s w; try discriminate.
  - reflexivity.
  - cbn [for_]. unfold bind. rewrite (Hbody x y).
    destruct (body y s w) as [[s'|e] w']; [|reflexivity].
    apply IH. now injection Hlen.
Qed.

Lemma range_length n : length (range n) = Z.to_nat n.
Proof. unfold range. now rewrite length_map, length_seq. Qed.

Section MoreLoops.
Context {R : Type} `{Num R} {St : Type}.
Implicit Types (params : list R) (generators : list string).

(** The Rotosolve driver loop from any state, for any list of iterations:
    it appends one oracle answer per iteration to the trajectory it is
    given, and what it appends does not depend on that trajectory. *)
Lemma rotosolve_loop_from (cost : St -> list R -> R * St) (l : list Z) :
  forall p w,
    exists p' rest w',
      length p' = length p
      /\ length rest = length l
      /\ Forall (fun v => exists s q, v = fst (cost s q)) rest
      /\ forall c,
           for_ l (rotosolve_loop_body cost) (p, c) w
           = (Ok (p', c ++ rest), w').
Proof.
  induction l as [|i l IH]; intros p w.
  - exists p, [], w. repeat split; [constructor|].
    intros c. now rewrite app_nil_r.
  - destruct (rotosolve_cycle_run cost p
                (World (snd (cost (ost w) p)) (log w ++ [p])))
      as (p1 & w1 & Hcyc & Hlen1 & _).
    destruct (IH p1 w1) as (p' & rest & w' & Hlen & Hrest & Hall & Hrun).
    exists p', (fst (cost (ost w) p) :: rest), w'.
    split; [congruence|]. split; [cbn; lia|]. split.
    { constructor; [eauto | exact Hall]. }
    intros c. cbn [for_].
    assert (Hbody : rotosolve_loop_body cost i (p, c) w
                    = (Ok (p1, c ++ [fst (cost (ost w) p)]), w1)).
    { unfold rotosolve_loop_body. run_call. run_with ltac:(exact Hcyc).
      reflexivity. }
    erewrite bind_ok by exact Hbody.
    rewrite Hrun, <- app_assoc. reflexivity.
Qed.

(** X9.  The Rotosolve loop can be resumed: for [n, m >= 0], running
    [n + m] steps gives the state that running [n] steps and then [m] more
    from the parameters and oracle state reached gives, and its trajectory
    is the first trajectory followed by the second. *)
Theorem X9_rotosolve_loop_resume (n m : Z) (cost : St -> list R -> R * St)
    init_params w :
  0 <= n -> 0 <= m ->
  exists p c w1 p' rest w2,
    rotosolve_loop n cost init_params w = (Ok (p, c), w1)
    /\ rotosolve_loop m cost p w1 = (Ok (p', rest), w2)
    /\ rotosolve_loop (n + m) cost init_params w = (Ok (p', c ++ rest), w2)
    /\ len c = n /\ len rest = m.
Proof.
  intros Hn Hm. unfold rotosolve_loop.
  destruct (rotosolve_loop_from cost (range n) init_params w)
    as (p & c & w1 & _ & Hc & _ & Hrun1).
  destruct (rotosolve_loop_from cost (range m) p w1)
    as (p' & rest & w2 & _ & Hrest & _ & Hrun2).
  exists p, c, w1, p', rest, w2.
  split; [exact (Hrun1 [])|]. split; [exact (Hrun2 [])|]. split.
  - rewrite (for_same_length _ (range (n + m)) (range n ++ range m)).
    + rewrite for_app. erewrite bind_ok by exact (Hrun1 []). cbn [app].
      apply Hrun2.
    + reflexivity.
    + rewrite length_app, !range_length. lia.
  - unfold len. rewrite Hc, Hrest, !range_length. lia.
Qed.

(** X10.  With [n_steps <= 0] neither driver loop does anything: no oracle
    call, the initial state returned, the trajectory empty. *)
Theorem X10_loops_no_steps (n_steps : Z) (cost : St -> list R -> R * St)
    (cost_rsel : @oracle2 R St) init_params init_generators w w2 :
  n_steps <= 0 ->
  rotosolve_loop n_steps cost init_params w = (Ok (init_params, []), w)
  /\ rotoselect_loop n_steps cost_rsel init_params init_generators w2
     = (Ok (init_params, init_generators, []), w2).
Proof.
  intros Hn. unfold rotosolve_loop, rotoselect_loop, range.
  replace (Z.to_nat n_steps) with 0%nat by lia. split; reflexivity.
Qed.

End MoreLoops.

Lemma X9_witness :
  0 <= 10 /\ 0 <= 20
  /\ exists p c w1 p' rest w2,
       rotosolve_loop 10 Demo.cost Demo.init_params Demo.w0 = (Ok (p, c), w1)
       /\ rotosolve_loop 20 Demo.cost p w1 = (Ok (p', rest), w2)
       /\ rotosolve_loop 30 Demo.cost Demo.init_params Demo.w0
          = (Ok (p', c ++ rest), w2).
Proof.
  assert (H10 : 0 <= 10) by lia. assert (H20 : 0 <= 20) by lia.
  split; [exact H10|]. split; [exact H20|].
  destruct (X9_rotosolve_loop_resume 10 20 Demo.cost Demo.init_params Demo.w0
              H10 H20)
    as (p & c & w1 & p' & rest & w2 & H1 & H2 & H3 & _).
  exists p, c, w1, p', rest, w2. split; [exact H1|]. split; [exact H2|].
  exact H3.
Defined.

Lemma X10_witness :
  -3 <= 0
  /\ rotosolve_loop (-3) Demo.cost Demo.init_params Demo.w0
     = (Ok (Demo.init_params, []), Demo.w0).
Proof.
  assert (Hn : -3 <= 0) by lia. split; [exact Hn|].
  exact (proj1 (X10_loops_no_steps (-3) Demo.cost Demo.cost_rsel
                  Demo.init_params Demo.init_generators Demo.w0 Demo.w0_rsel
                  Hn)).
Defined.

(** ** The closed form, in exact arithmetic *)

Module ExactMore.
Import Exact ExactFacts.

Local Open Scope R_scope.

(** The direction arctan2 returns is the direction of the point [(x, y)]:
    projecting the point on it gives the point's distance from the origin. *)
Lemma atan_aligned (x y : R) :
  x <> 0 ->
  let t := y / x in
  let s := sqrt (1 + t * t) in
  0 < s /\ s * s = 1 + t * t
  /\ cos (atan t) = 1 / s /\ sin (atan t) = t / s /\ y = t * x.
Proof.
  intros Hx t s.
  assert (H1 : 0 < 1 + t * t) by nra.
  split; [apply sqrt_lt_R0; exact H1|].
  split; [apply sqrt_sqrt; lra|].
  split; [apply cos_atan|]. split; [apply sin_atan|].
  unfold t. field. exact Hx.
Qed.

Lemma Ratan2_aligned (y x : R) :
  let a := Ratan2 y x in
  let v := x * cos a + y * sin a in
  0 <= v /\ v * v = x * x + y * y.
Proof.
  unfold Ratan2.
  destruct (Rlt_dec 0 x) as [Hx|Hx].
  - destruct (atan_aligned x y) as (Hs & Hss & Hc & Hsn & Hy); [lra|].
    set (t := y / x) in *. set (s := sqrt (1 + t * t)) in *.
    cbv zeta. rewrite Hc, Hsn.
    assert (Hv : x * (1 / s) + y * (t / s) = x * s).
    { rewrite Hy.
      replace (x * (1 / s) + t * x * (t / s)) with (x * (1 + t * t) / s)
        by (field; lra).
      rewrite <- Hss. field. lra. }
    rewrite Hv. split; [nra|].
    replace (x * s * (x * s)) with (x * x * (s * s)) by ring.
    rewrite Hss, Hy. ring.
  - destruct (Rlt_dec x 0) as [Hx'|Hx'].
    + destruct (atan_aligned x y) as (Hs & Hss & Hc & Hsn & Hy); [lra|].
      set (t := y / x) in *. set (s := sqrt (1 + t * t)) in *.
      assert (Hv : x * (- (1 / s)) + y * (- (t / s)) = - x * s).
      { rewrite Hy.
        replace (x * - (1 / s) + t * x * - (t / s))
          with (- x * (1 + t * t) / s) by (field; lra).
        rewrite <- Hss. field. lra. }
      assert (Hgoal : 0 <= - x * s /\ - x * s * (- x * s) = x * x + y * y).
      { split; [nra|].
        replace (- x * s * (- x * s)) with (x * x * (s * s)) by ring.
        rewrite Hss, Hy. ring. }
      destruct (Rle_dec 0 y) as [Hy0|Hy0]; cbv zeta.
      * rewrite neg_cos, neg_sin, Hc, Hsn, Hv. exact Hgoal.
      * rewrite cos_minus, sin_minus, cos_PI, sin_PI, Hc, Hsn.
        replace (x * (1 / s * -1 + t / s * 0) + y * (t / s * -1 - 1 / s * 0))
          with (x * (- (1 / s)) + y * (- (t / s))) by (field; lra).
        rewrite Hv. exact Hgoal.
    + assert (x = 0) by lra. subst x.
      destruct (Rlt_dec 0 y) as [Hy|Hy]; cbv zeta.
      * rewrite cos_PI2, sin_PI2. split; nra.
      * destruct (Rlt_dec y 0) as [Hy'|Hy'].
        -- replace (- PI / 2) with (- (PI / 2)) by field.
           rewrite cos_neg, sin_neg, cos_PI2, sin_PI2. split; nra.
        -- assert (y = 0) by lra. subst y. rewrite cos_0, sin_0. split; nra.
Qed.

(** Sine and cosine of the committed angle. *)
Lemma committed_trig (M_0 M_0_plus M_0_minus : R) :
  let a := angle_a M_0 M_0_plus M_0_minus in
  let th := committed M_0 M_0_plus M_0_minus in
  sin th = - cos a /\ cos th = - sin a.
Proof.
  intros a th.
  assert (Ht : sin (- PI / 2 - a) = - cos a /\ cos (- PI / 2 - a) = - sin a).
  { replace (- PI / 2 - a) with (- (PI / 2 + a)) by field.
    rewrite sin_neg, cos_neg. split.
    - rewrite (cos_sin a). reflexivity.
    - rewrite (sin_cos a). ring. }
  unfold th, committed. cbn [leb neg sub div add mul two pi R_num].
  fold a. destruct (Rleb (- PI / 2 - a) (- PI)).
  - rewrite sin_plus, cos_plus, sin_2PI, cos_2PI.
    destruct Ht as [-> ->]. split; ring.
  - exact Ht.
Qed.

(** The three probes of a sinusoid [A sin(theta + phi) + C] determine its
    minimum: at the committed angle the sinusoid takes the value
    [C - |A|]. *)
Lemma sinusoid_committed (A phi C : R) :
  let M0 := A * sin (0 + phi) + C in
  let Mp := A * sin (PI / 2 + phi) + C in
  let Mm := A * sin (- PI / 2 + phi) + C in
  A * sin (committed M0 Mp Mm + phi) = - Rabs A.
Proof.
  intros M0 Mp Mm. set (th := committed M0 Mp Mm).
  destruct (committed_trig M0 Mp Mm) as [Hs Hc]. fold th in Hs, Hc.
  set (a := angle_a M0 Mp Mm) in *.
  pose proof (Ratan2_aligned (2 * M0 - Mp - Mm) (Mp - Mm)) as Hal.
  cbv zeta in Hal.
  change (Ratan2 (2 * M0 - Mp - Mm) (Mp - Mm)) with a in Hal.
  assert (Hy : 2 * M0 - Mp - Mm = 2 * A * sin phi).
  { unfold M0, Mp, Mm. rewrite Rplus_0_l.
    replace (- PI / 2 + phi) with (- (PI / 2 - phi)) by field.
    rewrite sin_neg, <- (cos_sin phi), (sin_shift phi). ring. }
  assert (Hx : Mp - Mm = 2 * A * cos phi).
  { unfold Mp, Mm.
    replace (- PI / 2 + phi) with (- (PI / 2 - phi)) by field.
    rewrite sin_neg, <- (cos_sin phi), (sin_shift phi). ring. }
  rewrite Hy, Hx in Hal. destruct Hal as [Hv0 Hvv].
  pose proof (sin2_cos2 phi) as Hsc. unfold Rsqr in Hsc.
  rewrite sin_plus, Hs, Hc.
  set (v := 2 * A * cos phi * cos a + 2 * A * sin phi * sin a) in *.
  assert (Hv4 : v * v = 4 * (A * A)).
  { rewrite Hvv.
    replace (2 * A * cos phi * (2 * A * cos phi)
             + 2 * A * sin phi * (2 * A * sin phi))
      with (4 * (A * A) * (sin phi * sin phi + cos phi * cos phi)) by ring.
    rewrite Hsc. ring. }
  replace (A * (- cos a * cos phi + - sin a * sin phi)) with (- (v / 2))
    by (unfold v; field).
  unfold Rabs. destruct (Rcase_abs A); nra.
Qed.

Lemma sinusoid_lower_bound (A x : R) : - Rabs A <= A * sin x.
Proof.
  pose proof (SIN_bound x) as [Hlo Hhi].
  unfold Rabs. destruct (Rcase_abs A); nra.
Qed.

(** opt_theta on a cost that is a sinusoid along the axis it updates. *)
Lemma opt_theta_on_sinusoid {St : Type} (d : Z) (params : list R)
    (cost : St -> list R -> R * St) w (A phi C : R) :
  (0 <= d < len params)%Z ->
  (forall s theta,
     fst (cost s (<[Z.to_nat d:=theta]> params)) = A * sin (theta + phi) + C) ->
  exists p' w',
    opt_theta d params cost w = (Ok p', w')
    /\ length p' = length params
    /\ (forall s, fst (cost s p') = C - Rabs A)
    /\ (forall s theta,
          fst (cost s p') <= fst (cost s (<[Z.to_nat d:=theta]> params)))
    /\ forall s, fst (cost s p') <= fst (cost s params).
Proof.
  intros Hd Hsin. set (k := Z.to_nat d) in *.
  assert (E : norm_index (length params) d = Some k)
    by (apply norm_index_nonneg; exact Hd).
  pose proof (opt_theta_run d params cost w k E) as Hrun. cbv zeta in Hrun.
  rewrite !Hsin in Hrun.
  cbn [zero div neg pi two R_num] in Hrun.
  pose proof (sinusoid_committed A phi C) as Hval. cbv zeta in Hval.
  set (th := committed _ _ _) in Hrun, Hval.
  exists (<[k:=th]> params). eexists. split; [exact Hrun|].
  split; [apply length_insert|].
  assert (Hmin : forall s theta,
            fst (cost s (<[k:=th]> params))
            <= fst (cost s (<[k:=theta]> params))).
  { intros s theta. rewrite !Hsin, Hval.
    pose proof (sinusoid_lower_bound A (theta + phi)). lra. }
  split; [|split; [exact Hmin|]].
  - intros s. rewrite Hsin, Hval. ring.
  - intros s. destruct (params !! k) as [x|] eqn:Hx.
    + rewrite <- (list_insert_id params k x Hx) at 2. apply Hmin.
    + apply lookup_ge_None in Hx. unfold len in Hd. lia.
Qed.

(** X11.  For a cost that is a sinusoid in [params[d]], with amplitude,
    phase and offset [A], [phi], [C] (which may depend on the other
    entries), opt_theta lands on a global minimiser along that axis: the
    cost there is [C - |A|], it is at most the cost at every other value of
    [params[d]], and in particular at most the cost before the update. *)
Theorem X11_rotosolve_exact {St : Type} (d : Z) (params : list R)
    (cost : St -> list R -> R * St) w (A phi C : R) :
  (0 <= d < len params)%Z ->
  (forall s theta,
     fst (cost s (<[Z.to_nat d:=theta]> params)) = A * sin (theta + phi) + C) ->
  exists p' w',
    opt_theta d params cost w = (Ok p', w')
    /\ (forall s, fst (cost s p') = C - Rabs A)
    /\ (forall s theta,
          fst (cost s p') <= fst (cost s (<[Z.to_nat d:=theta]> params)))
    /\ forall s, fst (cost s p') <= fst (cost s params).
Proof.
  intros Hd Hsin.
  destruct (opt_theta_on_sinusoid d params cost w A phi C Hd Hsin)
    as (p' & w' & Hrun & _ & Hval & Hmin & Hle).
  now exists p', w'.
Qed.

(** X12.  In exact arithmetic the generator search returns a candidate of
    least cost: the pair the helper returns is the angle and tag of one of
    the three candidates it evaluated, and that candidate's cost is at most
    the cost of each of the three. *)
Theorem X12_winner_minimal {St : Type} (d : Z) (params : list R)
    (generators : list string) (cost : @oracle2 R St) w :
  (0 <= d < len params)%Z ->
  length generators = length params ->
  let k := Z.to_nat d in
  let cX := fst (cand_X cost k params generators (ost w)) in
  let cY := fst (cand_Y cost k params generators (ost w)) in
  let cZ := fst (cand_Z cost k params generators (ost w)) in
  exists theta c g arrays w',
    optimal_theta_and_gen_helper d params generators cost w
    = (Ok (theta, g, arrays), w')
    /\ ((theta, c, g) = (cX, "X") \/ (theta, c, g) = (cY, "Y")
        \/ (theta, c, g) = (cZ, "Z"))
    /\ c <= snd cX /\ c <= snd cY /\ c <= snd cZ.
Proof.
  intros Hd Hg k cX cY cZ.
  assert (E : norm_index (length params) d = Some k)
    by (apply norm_index_nonneg; exact Hd).
  assert (Eg : norm_index (length generators) d = Some k)
    by (rewrite Hg; exact E).
  pose proof (helper_run d params generators cost w k E Eg) as Hrun.
  cbv zeta in Hrun.
  assert (Hwin : winner cost k params generators (ost w) = select cX cY cZ)
    by reflexivity.
  rewrite Hwin in Hrun. clear Hwin. clearbody cX cY cZ.
  destruct cX as [tX vX], cY as [tY vY], cZ as [tZ vZ].
  destruct (select (tX, vX) (tY, vY) (tZ, vZ)) as [[theta c] g] eqn:Hsel.
  exists theta, c, g. do 2 eexists. split; [exact Hrun|]. clear Hrun.
  revert Hsel. unfold select, challenge. cbn [fst snd leb R_num].
  destruct (Rleb vY vX) eqn:HYX;
    [apply Rleb_true in HYX | apply Rleb_false in HYX]; cbn [fst snd];
    (destruct (Rleb vZ _) eqn:HZ;
     [apply Rleb_true in HZ | apply Rleb_false in HZ]);
    intros [= <- <- <-]; (split; [auto|]); repeat split; lra.
Qed.

(** X13.  The Hamiltonian H = 0.5 Y_2 + 0.8 Z_1 - 0.2 X_1: when the device
    returns expectation values in [-1, 1], both cost functions return a value
    in [-3/2, 3/2], and so does every entry of the trajectory the Rotosolve
    loop records. *)
Theorem X13_cost_bounded {St : Type}
    (circuit : St -> list R -> (R * R) * St)
    (circuit2 : St -> list R -> R * St)
    (circuit_rsel : St -> list R * list string -> (R * R) * St)
    (circuit_rsel2 : St -> list R * list string -> R * St) :
  (forall s p, Hamiltonian.expval (fst (fst (circuit s p)))
               /\ Hamiltonian.expval (snd (fst (circuit s p)))) ->
  (forall s p, Hamiltonian.expval (fst (circuit2 s p))) ->
  (forall s x, Hamiltonian.expval (fst (fst (circuit_rsel s x)))
               /\ Hamiltonian.expval (snd (fst (circuit_rsel s x)))) ->
  (forall s x, Hamiltonian.expval (fst (circuit_rsel2 s x))) ->
  (forall s p,
     - (3 / 2) <= fst (Hamiltonian.cost circuit circuit2 s p) <= 3 / 2)
  /\ (forall s x,
        - (3 / 2)
        <= fst (Hamiltonian.cost_rsel circuit_rsel circuit_rsel2 s x)
        <= 3 / 2)
  /\ forall n_steps init_params w,
       exists p c w',
         rotosolve_loop n_steps (Hamiltonian.cost circuit circuit2)
           init_params w
         = (Ok (p, c), w')
         /\ Forall (fun v => - (3 / 2) <= v <= 3 / 2) c.
Proof.
  intros H1 H2 H3 H4.
  assert (Hc : forall s p,
            - (3 / 2) <= fst (Hamiltonian.cost circuit circuit2 s p) <= 3 / 2).
  { intros s p. unfold Hamiltonian.cost.
    specialize (H1 s p). destruct (circuit s p) as [[z y] s1].
    specialize (H2 s1 p). destruct (circuit2 s1 p) as [x s2].
    unfold Hamiltonian.expval in *. cbn [fst snd] in *. lra. }
  split; [exact Hc|]. split.
  - intros s x. unfold Hamiltonian.cost_rsel.
    specialize (H3 s x). destruct (circuit_rsel s x) as [[z y] s1].
    specialize (H4 s1 x). destruct (circuit_rsel2 s1 x) as [x1 s2].
    unfold Hamiltonian.expval in *. cbn [fst snd] in *. lra.
  - intros n_steps init_params w.
    destruct (rotosolve_loop_from (Hamiltonian.cost circuit circuit2)
                (range n_steps) init_params w)
      as (p & c & w' & _ & _ & Hall & Hrun).
    exists p, c, w'. split; [exact (Hrun [])|].
    eapply Forall_impl; [exact Hall|].
    intros v (s & q & ->). apply Hc.
Qed.

(** A candidate of the generator search, when the cost is a sinusoid in the
    angle under that generator and [M_0] is its value at angle 0. *)
Lemma probe_on_sinusoid {St : Type} (cost : @oracle2 R St) k (params : list R)
    (generators : list string) g (A phi C M_0 : R) s0 :
  M_0 = A * sin phi + C ->
  (forall s theta,
     fst (cost s (<[k:=theta]> params, <[k:=g]> generators))
     = A * sin (theta + phi) + C) ->
  let pr := probe cost k params generators M_0 g s0 in
  snd (fst pr) = C - Rabs A
  /\ forall s,
       fst (cost s (<[k:=fst (fst pr)]> params, <[k:=g]> generators))
       = C - Rabs A.
Proof.
  intros HM Hsin pr.
  assert (Hth : fst (fst pr)
                = committed (A * sin (0 + phi) + C)
                    (A * sin (PI / 2 + phi) + C)
                    (A * sin (- PI / 2 + phi) + C)).
  { unfold pr, probe. cbn [fst snd]. rewrite !Hsin.
    cbn [div neg pi two R_num]. rewrite HM, Rplus_0_l. reflexivity. }
  pose proof (sinusoid_committed A phi C) as Hval. cbv zeta in Hval.
  rewrite <- Hth in Hval.
  assert (Hat : forall s,
            fst (cost s (<[k:=fst (fst pr)]> params, <[k:=g]> generators))
            = C - Rabs A).
  { intros s. rewrite Hsin, Hval. ring. }
  split; [|exact Hat].
  unfold pr at 1. unfold probe. cbn [fst snd]. apply Hat.
Qed.

(** X14.  When under each of X, Y, Z the cost is a sinusoid in [params[d]]
    (amplitude, phase and offset depending on the generator) and the three
    sinusoids agree at angle 0 with the baseline the helper measures, the
    helper returns a global minimiser over the angle and the generator of
    slot [d]: no angle under any of the three generators gives a smaller
    cost. *)
Theorem X14_rotoselect_exact {St : Type} (d : Z) (params : list R)
    (generators : list string) (cost : @oracle2 R St) w
    (A phi C : string -> R) (M_0 : R) :
  (0 <= d < len params)%Z ->
  length generators = length params ->
  let k := Z.to_nat d in
  let xyz := fun g : string => g = "X" \/ g = "Y" \/ g = "Z" in
  (forall s, fst (cost s (<[k:=0]> params, generators)) = M_0) ->
  (forall g, xyz g -> M_0 = A g * sin (phi g) + C g) ->
  (forall s theta g, xyz g ->
     fst (cost s (<[k:=theta]> params, <[k:=g]> generators))
     = A g * sin (theta + phi g) + C g) ->
  exists theta g arrays w',
    optimal_theta_and_gen_helper d params generators cost w
    = (Ok (theta, g, arrays), w')
    /\ xyz g
    /\ (forall s,
          fst (cost s (<[k:=theta]> params, <[k:=g]> generators))
          = C g - Rabs (A g))
    /\ forall s theta' g', xyz g' ->
         fst (cost s (<[k:=theta]> params, <[k:=g]> generators))
         <= fst (cost s (<[k:=theta']> params, <[k:=g']> generators)).
Proof.
  intros Hd Hg k xyz Hbase HM Hsin.
  assert (E : norm_index (length params) d = Some k)
    by (apply norm_index_nonneg; exact Hd).
  assert (Eg : norm_index (length generators) d = Some k)
    by (rewrite Hg; exact E).
  pose proof (helper_run d params generators cost w k E Eg) as Hrun.
  cbv zeta in Hrun.
  assert (HP : forall g s0, xyz g ->
            let pr := probe cost k params generators
                        (fst (baseline cost k params generators (ost w)))
                        g s0 in
            snd (fst pr) = C g - Rabs (A g)
            /\ forall s,
                 fst (cost s (<[k:=fst (fst pr)]> params, <[k:=g]> generators))
                 = C g - Rabs (A g)).
  { intros g s0 Hx.
    apply (probe_on_sinusoid cost k params generators g (A g) (phi g) (C g)).
    - unfold baseline. cbn [zero R_num]. rewrite Hbase. now apply HM.
    - intros s theta. now apply Hsin. }
  assert (Hlow : forall s theta' g', xyz g' ->
            C g' - Rabs (A g')
            <= fst (cost s (<[k:=theta']> params, <[k:=g']> generators))).
  { intros s theta' g' Hx. rewrite (Hsin s theta' g' Hx).
    pose proof (sinusoid_lower_bound (A g') (theta' + phi g')). lra. }
  assert (HxX : xyz "X") by (unfold xyz; auto).
  assert (HxY : xyz "Y") by (unfold xyz; auto).
  assert (HxZ : xyz "Z") by (unfold xyz; auto).
  unfold winner, cand_Z, cand_Y, cand_X in Hrun. cbv zeta in Hrun.
  set (b := baseline cost k params generators (ost w)) in *.
  set (pX := probe cost k params generators (fst b) "X" (snd b)) in *.
  set (pY := probe cost k params generators (fst b) "Y" (snd pX)) in *.
  set (pZ := probe cost k params generators (fst b) "Z" (snd pY)) in *.
  destruct (HP "X" (snd b) HxX) as [HcX HaX]. fold pX in HcX, HaX.
  destruct (HP "Y" (snd pX) HxY) as [HcY HaY]. fold pY in HcY, HaY.
  destruct (HP "Z" (snd pY) HxZ) as [HcZ HaZ]. fold pZ in HcZ, HaZ.
  assert (Hall : forall g', xyz g' ->
            C g' - Rabs (A g') = snd (fst pX)
            \/ C g' - Rabs (A g') = snd (fst pY)
            \/ C g' - Rabs (A g') = snd (fst pZ)).
  { intros g' [-> | [-> | ->]]; auto. }
  unfold select, challenge in Hrun. cbn [fst snd leb R_num] in Hrun.
  destruct (Rleb (snd (fst pY)) (snd (fst pX))) eqn:HYX;
    [apply Rleb_true in HYX | apply Rleb_false in HYX];
    cbn [fst snd] in Hrun;
    (destruct (Rleb (snd (fst pZ)) _) eqn:HZ;
     [apply Rleb_true in HZ | apply Rleb_false in HZ]);
    cbn [fst snd] in Hrun;
    do 4 eexists; (split; [exact Hrun|]);
    (split; [assumption|]); (split; [assumption|]);
    intros s theta' g' Hx;
    pose proof (Hlow s theta' g' Hx) as Hl;
    destruct (Hall g' Hx) as [Hq | [Hq | Hq]];
    rewrite ?HaX, ?HaY, ?HaZ; lra.
Qed.

(** Rotosolve over the indices [a, a + n) of a sinusoidal landscape never
    increases the cost. *)
Lemma rotosolve_sweep_descends {St : Type} (cost : St -> list R -> R * St)
    (D : nat) :
  sinusoidal cost D ->
  forall n a (p : list R) w,
    length p = D -> (a + n <= D)%nat ->
    exists p' w',
      for_ (map Z.of_nat (seq a n)) (fun d q => opt_theta d q cost) p w
      = (Ok p', w')
      /\ length p' = D
      /\ forall s, fst (cost s p') <= fst (cost s p).
Proof.
  intros Hsin. induction n as [|n IH]; intros a p w Hp Hn.
  - exists p, w. split; [reflexivity|]. split; [exact Hp|]. intros s. lra.
  - cbn [seq map for_].
    destruct (Hsin p a Hp) as (A & phi & C & HA); [lia|].
    destruct (opt_theta_on_sinusoid (Z.of_nat a) p cost w A phi C)
      as (p1 & w1 & Hrun1 & Hlen1 & _ & _ & Hle1).
    { unfold len. lia. }
    { rewrite Nat2Z.id. exact HA. }
    erewrite bind_ok by exact Hrun1.
    destruct (IH (S a) p1 w1) as (p' & w' & Hrun & Hlen & Hle);
      [congruence | lia |].
    exists p', w'. split; [exact Hrun|]. split; [exact Hlen|].
    intros s. specialize (Hle s). specialize (Hle1 s). lra.
Qed.

(** X15.  On a landscape that is sinusoidal along every axis, one Rotosolve
    cycle never increases the cost. *)
Theorem X15_rotosolve_cycle_descends {St : Type}
    (cost : St -> list R -> R * St) (params : list R) w :
  sinusoidal cost (length params) ->
  exists p' w',
    rotosolve_cycle cost params w = (Ok p', w')
    /\ forall s, fst (cost s p') <= fst (cost s params).
Proof.
  intros Hsin. unfold rotosolve_cycle. rewrite range_len.
  destruct (rotosolve_sweep_descends cost (length params) Hsin
              (length params) 0%nat params w eq_refl)
    as (p' & w' & Hrun & _ & Hle); [lia|].
  now exists p', w'.
Qed.

(** The answer of a sinusoidal landscape does not depend on the oracle's
    state. *)
Lemma sinusoidal_deterministic {St : Type} (cost : St -> list R -> R * St)
    (q : list R) :
  sinusoidal cost (length q) -> (0 < length q)%nat ->
  forall s s', fst (cost s q) = fst (cost s' q).
Proof.
  intros Hsin Hq s s'.
  destruct (Hsin q 0%nat eq_refl Hq) as (A & phi & C & HA).
  destruct (q !! 0%nat) as [x|] eqn:Hx.
  - rewrite <- (list_insert_id q 0%nat x Hx). now rewrite !HA.
  - apply lookup_ge_None in Hx. lia.
Qed.

Lemma rotosolve_loop_descends {St : Type} (cost : St -> list R -> R * St)
    (D : nat) :
  sinusoidal cost D -> (0 < D)%nat ->
  forall (l : list Z) (p : list R) w,
    length p = D ->
    exists p' rest w',
      (forall c,
         for_ l (rotosolve_loop_body cost) (p, c) w
         = (Ok (p', c ++ rest), w'))
      /\ (forall i x y,
            rest !! i = Some x -> rest !! S i = Some y -> y <= x)
      /\ Forall (fun v => forall s, v <= fst (cost s p)) rest.
Proof.
  intros Hsin HD. induction l as [|i l IH]; intros p w Hp.
  - exists p, [], w. split; [intros c; now rewrite app_nil_r|].
    split; [intros i x y Hx; discriminate | constructor].
  - subst D.
    destruct (rotosolve_sweep_descends cost (length p) Hsin (length p) 0%nat p
                (World (snd (cost (ost w) p)) (log w ++ [p])) eq_refl)
      as (p1 & w1 & Hcyc & Hlen1 & Hle1); [lia|].
    destruct (IH p1 w1 Hlen1) as (p' & rest & w' & Hrun & Hadj & Hall).
    set (c0 := fst (cost (ost w) p)).
    assert (Hrest : Forall (fun v => v <= c0) rest).
    { eapply Forall_impl; [exact Hall|]. intros v Hv. cbn beta in Hv.
      specialize (Hv (ost w)). specialize (Hle1 (ost w)). unfold c0. lra. }
    exists p', (c0 :: rest), w'. split; [|split].
    + intros c. cbn [for_].
      assert (Hbody : rotosolve_loop_body cost i (p, c) w
                      = (Ok (p1, c ++ [c0]), w1)).
      { unfold rotosolve_loop_body. run_call.
        unfold rotosolve_cycle. rewrite range_len.
        run_with ltac:(exact Hcyc). reflexivity. }
      erewrite bind_ok by exact Hbody.
      rewrite Hrun, <- app_assoc. reflexivity.
    + intros [|j] x y Hx Hy.
      * injection Hx as <-. cbn in Hy.
        rewrite Forall_lookup in Hrest. exact (Hrest 0%nat y Hy).
      * exact (Hadj j x y Hx Hy).
    + constructor.
      * intros s. unfold c0.
        rewrite (sinusoidal_deterministic cost p Hsin HD (ost w) s). lra.
      * eapply Forall_impl; [exact Hall|]. intros v Hv s. cbn beta in Hv.
        specialize (Hv s). specialize (Hle1 s). lra.
Qed.

(** X16.  On a landscape that is sinusoidal along every axis the trajectory
    the Rotosolve loop records is non-increasing: each recorded cost is at
    most the one recorded before it. *)
Theorem X16_trajectory_descends {St : Type} (cost : St -> list R -> R * St)
    (n_steps : Z) (init_params : list R) w :
  sinusoidal cost (length init_params) ->
  (0 < length init_params)%nat ->
  exists p c w',
    rotosolve_loop n_steps cost init_params w = (Ok (p, c), w')
    /\ forall i x y, c !! i = Some x -> c !! S i = Some y -> y <= x.
Proof.
  intros Hsin HD.
  destruct (rotosolve_loop_descends cost (length init_params) Hsin HD
              (range n_steps) init_params w eq_refl)
    as (p & c & w' & Hrun & Hadj & _).
  exists p, c, w'. split; [exact (Hrun [])|exact Hadj].
Qed.

End ExactMore.

Import Exact.

Lemma X11_witness :
  0 <= 0 < len Demo.init_params
  /\ (forall (s : unit) theta,
        fst (Demo.cost s (<[Z.to_nat 0:=theta]> Demo.init_params))
        = (1 * sin (theta + 0) + cos (1 / 4))%R)
  /\ exists p' w',
       opt_theta 0 Demo.init_params Demo.cost Demo.w0 = (Ok p', w')
       /\ (forall s, fst (Demo.cost s p') = (cos (1 / 4) - Rabs 1)%R)
       /\ forall s, (fst (Demo.cost s p') <= fst (Demo.cost s Demo.init_params))%R.
Proof.
  assert (Hsin : forall (s : unit) theta,
            fst (Demo.cost s (<[Z.to_nat 0:=theta]> Demo.init_params))
            = (1 * sin (theta + 0) + cos (1 / 4))%R).
  { intros s theta.
    change (fst (Demo.cost s (<[Z.to_nat 0:=theta]> Demo.init_params)))
      with (sin theta + cos (1 / 4))%R.
    rewrite Rplus_0_r. ring. }
  split; [exact demo_index_0|]. split; [exact Hsin|].
  destruct (ExactMore.X11_rotosolve_exact 0 Demo.init_params Demo.cost
              Demo.w0 1%R 0%R (cos (1 / 4)) demo_index_0 Hsin)
    as (p' & w' & Hrun & Hval & _ & Hle).
  exists p', w'. split; [exact Hrun|]. split; [exact Hval | exact Hle].
Defined.

Lemma X12_witness :
  0 <= 0 < len Demo.init_params
  /\ length Demo.init_generators = length Demo.init_params
  /\ exists theta c g arrays w',
       optimal_theta_and_gen_helper 0 Demo.init_params Demo.init_generators
         Demo.cost_rsel Demo.w0_rsel
       = (Ok (theta, g, arrays), w')
       /\ (c <= snd (fst (cand_X Demo.cost_rsel 0 Demo.init_params
                            Demo.init_generators tt)))%R.
Proof.
  split; [exact demo_index_0|]. split; [exact demo_lengths|].
  destruct (ExactMore.X12_winner_minimal 0 Demo.init_params
              Demo.init_generators Demo.cost_rsel Demo.w0_rsel
              demo_index_0 demo_lengths)
    as (theta & c & g & arrays & w' & Hrun & _ & HX & _).
  exists theta, c, g, arrays, w'. split; [exact Hrun | exact HX].
Defined.

Lemma standin_circuit s p :
  Hamiltonian.expval (fst (fst (StandIn.circuit s p)))
  /\ Hamiltonian.expval (snd (fst (StandIn.circuit s p))).
Proof. split; [apply COS_bound | apply SIN_bound]. Qed.

Lemma standin_circuit2 s p : Hamiltonian.expval (fst (StandIn.circuit2 s p)).
Proof. apply SIN_bound. Qed.

Lemma standin_circuit_rsel s x :
  Hamiltonian.expval (fst (fst (StandIn.circuit_rsel s x)))
  /\ Hamiltonian.expval (snd (fst (StandIn.circuit_rsel s x))).
Proof. apply standin_circuit. Qed.

Lemma standin_circuit_rsel2 s x :
  Hamiltonian.expval (fst (StandIn.circuit_rsel2 s x)).
Proof. apply standin_circuit2. Qed.

Lemma X13_witness :
  (forall s p, Hamiltonian.expval (fst (StandIn.circuit2 s p)))
  /\ exists p c w',
       rotosolve_loop 30 (Hamiltonian.cost StandIn.circuit StandIn.circuit2)
         Demo.init_params Demo.w0
       = (Ok (p, c), w')
       /\ Forall (fun v => (- (3 / 2) <= v <= 3 / 2)%R) c.
Proof.
  split; [exact standin_circuit2|].
  destruct (ExactMore.X13_cost_bounded StandIn.circuit StandIn.circuit2
              StandIn.circuit_rsel StandIn.circuit_rsel2
              standin_circuit standin_circuit2
              standin_circuit_rsel standin_circuit_rsel2)
    as (_ & _ & Hloop).
  exact (Hloop 30 Demo.init_params Demo.w0).
Defined.

Lemma demo_sinusoidal : sinusoidal Demo.cost (length Demo.init_params).
Proof.
  intros q k Hq Hk. destruct q as [|a [|b [|c q]]]; try discriminate.
  destruct k as [|[|k]]; [| |cbn in Hk; lia].
  - exists 1%R, 0%R, (cos b). intros s theta.
    change (fst (Demo.cost s (<[0%nat:=theta]> [a; b])))
      with (sin theta + cos b)%R.
    rewrite Rplus_0_r. ring.
  - exists 1%R, (PI / 2)%R, (sin a). intros s theta.
    change (fst (Demo.cost s (<[1%nat:=theta]> [a; b])))
      with (sin a + cos theta)%R.
    rewrite (Rplus_comm theta), <- cos_sin. ring.
Qed.

Lemma demo_nonempty : (0 < length Demo.init_params)%nat.
Proof. cbn. lia. Qed.

Lemma X14_witness :
  0 <= 0 < len Demo.init_params
  /\ length Demo.init_generators = length Demo.init_params
  /\ exists theta g arrays w',
       optimal_theta_and_gen_helper 0 Demo.init_params Demo.init_generators
         Demo.cost_rsel Demo.w0_rsel
       = (Ok (theta, g, arrays), w')
       /\ forall s,
            fst (Demo.cost_rsel s (<[0%nat:=theta]> Demo.init_params,
                                   <[0%nat:=g]> Demo.init_generators))
            = (cos (1 / 4) - Rabs 1)%R.
Proof.
  split; [exact demo_index_0|]. split; [exact demo_lengths|].
  destruct (ExactMore.X14_rotoselect_exact 0 Demo.init_params
              Demo.init_generators Demo.cost_rsel Demo.w0_rsel
              (fun _ => 1%R) (fun _ => 0%R) (fun _ => cos (1 / 4))
              (sin 0 + cos (1 / 4))%R demo_index_0 demo_lengths)
    as (theta & g & arrays & w' & Hrun & _ & Hval & _).
  - intros s. reflexivity.
  - intros g _. ring.
  - intros s theta g _.
    change (fst (Demo.cost_rsel s (<[Z.to_nat 0:=theta]> Demo.init_params,
                                   <[Z.to_nat 0:=g]> Demo.init_generators)))
      with (sin theta + cos (1 / 4))%R.
    rewrite Rplus_0_r. ring.
  - exists theta, g, arrays, w'. split; [exact Hrun | exact Hval].
Defined.

Lemma X15_witness :
  sinusoidal Demo.cost (length Demo.init_params)
  /\ exists p' w',
       rotosolve_cycle Demo.cost Demo.init_params Demo.w0 = (Ok p', w')
       /\ forall s, (fst (Demo.cost s p') <= fst (Demo.cost s Demo.init_params))%R.
Proof.
  split; [exact demo_sinusoidal|].
  exact (ExactMore.X15_rotosolve_cycle_descends Demo.cost Demo.init_params
           Demo.w0 demo_sinusoidal).
Defined.

Lemma X16_witness :
  sinusoidal Demo.cost (length Demo.init_params)
  /\ (0 < length Demo.init_params)%nat
  /\ exists p c w',
       rotosolve_loop 30 Demo.cost Demo.init_params Demo.w0 = (Ok (p, c), w')
       /\ forall i x y, c !! i = Some x -> c !! S i = Some y -> (y <= x)%R.
Proof.
  split; [exact demo_sinusoidal|]. split; [exact demo_nonempty|].
  exact (ExactMore.X16_trajectory_descends Demo.cost 30 Demo.init_params
           Demo.w0 demo_sinusoidal demo_nonempty).
Defined.

(** ** A NaN answer of the oracle, in the code's own arithmetic *)

Module Float64Facts.
Import PrimFloat.

(** Whatever atan2 is away from NaN: when the oracle answers NaN, opt_theta
    makes its three calls and the value it commits is NaN, which is not in
    (-pi, pi]. *)
Lemma nan_answer_commits_nan (atan2 : float -> float -> float)
    (d : Z) (params : list float) w k :
  norm_index (length params) d = Some k ->
  @opt_theta _ (Float64.float_num atan2) unit d params Float64.nan_cost w
  = (Ok (<[k:=nan]> params),
     World (ost w) (log w ++ [<[k:=0%float]> params;
                         <[k:=div Float64.np_pi 2%float]> params;
                         <[k:=div (opp Float64.np_pi) 2%float]> params]))
  /\ Float64.in_range nan = false.
Proof.
  intros E. split; [|reflexivity].
  rewrite (@opt_theta_run _ (Float64.float_num atan2) unit d params
             Float64.nan_cost w k E).
  reflexivity.
Qed.


End Float64Facts.
